(** * Object-permission forms of django-guardian ([guardian/forms.py])

    A shallow embedding of the four object-permission forms and of their
    [save_obj_perms] methods, which reconcile the grants a principal holds on
    an object with the permissions selected in a validated form.

    The forms talk to three collaborators that live outside [forms.py]: the
    permission catalog ([get_perms_for_model]), the grant store ([get_perms],
    [assign], [remove_perm]) and the [User] / [Group] tables.  They are taken
    as interfaces (type classes); concrete instances used to run the forms on
    examples are given at the end of the definitions.

    A method is a computation in a small state-and-exception monad.  Its
    state is the grant store together with a journal of the store calls
    issued, so that statements can speak about which calls were made and in
    which order; an exception stops the computation and keeps the state
    reached.  A form is modelled after validation, as its docstring asks:
    [cleaned_data] is a record of the cleaned values. *)

From stdpp Require Import base option list gmap sets strings.
From Stdlib Require Import ZArith.

Local Open Scope string_scope.
Local Open Scope list_scope.

(** ** Data model *)

(** [django.contrib.auth.models.Permission], as far as the forms read it. *)
Record Permission := { codename : string; name : string }.

(** [django.contrib.auth.models.User] and [Group]: a primary key and a
    display name. *)
Record User := { user_pk : Z; username : string }.
Record Group := { group_pk : Z; group_name : string }.

(** The second argument of [assign] and [remove_perm] is a user or a group. *)
Inductive principal :=
| PUser (u : User)
| PGroup (g : Group).

(** Any model instance permissions attach to: its type and its key. *)
Record Obj := { content_type : string; obj_pk : Z }.

Global Instance Permission_eq_dec : EqDecision Permission.
Proof. solve_decision. Defined.
Global Instance User_eq_dec : EqDecision User.
Proof. solve_decision. Defined.
Global Instance Group_eq_dec : EqDecision Group.
Proof. solve_decision. Defined.
Global Instance principal_eq_dec : EqDecision principal.
Proof. solve_decision. Defined.
Global Instance Obj_eq_dec : EqDecision Obj.
Proof. solve_decision. Defined.

Global Instance User_countable : Countable User.
Proof.
  refine (inj_countable' (λ u, (user_pk u, username u))
                         (λ t, {| user_pk := t.1; username := t.2 |}) _).
  by intros [].
Defined.
Global Instance Group_countable : Countable Group.
Proof.
  refine (inj_countable' (λ g, (group_pk g, group_name g))
                         (λ t, {| group_pk := t.1; group_name := t.2 |}) _).
  by intros [].
Defined.
Global Instance principal_countable : Countable principal.
Proof.
  refine (inj_countable'
            (λ p, match p with PUser u => inl u | PGroup g => inr g end)
            (λ s, match s with inl u => PUser u | inr g => PGroup g end) _).
  by intros [].
Defined.
Global Instance Obj_countable : Countable Obj.
Proof.
  refine (inj_countable' (λ o, (content_type o, obj_pk o))
                         (λ t, {| content_type := t.1; obj_pk := t.2 |}) _).
  by intros [].
Defined.

(** ** Exceptions and results *)

(** The exceptions that can reach the caller of a form. *)
Inductive error :=
| StoreOperationError
| NotFoundError.

Inductive result (A : Type) :=
| Ok (a : A)
| Raise (e : error).
Arguments Ok {A} a.
Arguments Raise {A} e.

Global Instance error_eq_dec : EqDecision error.
Proof. solve_decision. Defined.

(** ** Collaborators *)

(** The permission catalog behind [guardian.shortcuts.get_perms_for_model]:
    the permissions defined for a type, in catalog order. *)
Class PermissionCatalog := permissionsFor : string → list Permission.

(** The grant store behind [guardian.shortcuts]: the state [S] of the
    permission tables, the set of codenames a principal holds on an object,
    and the two mutations.  A mutation is atomic: it either returns the new
    state or raises and leaves the state as it was. *)
Class GrantStore (S : Type) := {
  currentGrants : principal → Obj → S → gset string;
  store_assign : string → principal → Obj → S → result S;
  store_remove : string → principal → Obj → S → result S;
}.

(** The [User] and [Group] tables ([User.objects.all()],
    [Group.objects.all()]). *)
Class AuthModels := {
  User_objects_all : list User;
  Group_objects_all : list Group;
}.

(** The order in which a [for] loop visits a Python [set].  The language
    leaves it unspecified; it is a parameter of the embedding. *)
Class SetIteration := set_iter : gset string → list string.

(** ** Store calls and the monad of a request *)

(** A call issued to the grant store. *)
Inductive call :=
| RemovePerm (perm : string) (who : principal) (obj : Obj)
| Assign (perm : string) (who : principal) (obj : Obj).

Global Instance call_eq_dec : EqDecision call.
Proof. solve_decision. Defined.

(** The principal a call is about. *)
Definition call_who (k : call) : principal :=
  match k with
  | RemovePerm _ who _ => who
  | Assign _ who _ => who
  end.

(** The state a request runs in: the grant store and the journal of the
    store calls issued so far (oldest first). *)
Record world (S : Type) := World { store : S; log : list call }.
Arguments World {S} store log.
Arguments store {S} _.
Arguments log {S} _.

(** A computation reads and updates the world and returns a value or raises;
    a raised exception leaves the world as it was at the raise. *)
Definition M (S A : Type) : Type := world S → world S * result A.

Global Instance M_ret {S} : MRet (M S) := λ A a w, (w, Ok a).

Global Instance M_bind {S} : MBind (M S) := λ A B f m w,
  match m w with
  | (w', Ok a) => f a w'
  | (w', Raise e) => (w', Raise e)
  end.

(** [raise e] and lifting of a pure result. *)
Definition lift {S A} (r : result A) : M S A := λ w, (w, r).

(** [for x in l: body(x)]. *)
Fixpoint for_each {S A} (l : list A) (body : A → M S unit) : M S unit :=
  match l with
  | [] => mret tt
  | x :: l' => body x ;; for_each l' body
  end.

Section Shortcuts.
Context {S : Type} `{!GrantStore S} `{!PermissionCatalog}.

(** What a call does to the store. *)
Definition exec (k : call) (s : S) : result S :=
  match k with
  | RemovePerm perm who obj => store_remove perm who obj s
  | Assign perm who obj => store_assign perm who obj s
  end.

(** Issue one call: it is journalled, then applied. *)
Definition issue (k : call) : M S unit := λ w,
  match exec k (store w) with
  | Ok s' => (World s' (log w ++ [k]), Ok tt)
  | Raise e => (World (store w) (log w ++ [k]), Raise e)
  end.

(** [guardian.shortcuts.assign(perm, user_or_group, obj)]. *)
Definition assign (perm : string) (who : principal) (obj : Obj) : M S unit :=
  issue (Assign perm who obj).

(** [guardian.shortcuts.remove_perm(perm, user_or_group, obj)]. *)
Definition remove_perm (perm : string) (who : principal) (obj : Obj) : M S unit :=
  issue (RemovePerm perm who obj).

(** [guardian.shortcuts.get_perms(group, obj)]: for a group, the codenames
    the group holds on the object.  (For a user the function also returns
    what the user holds through groups; that reading is not part of this
    embedding.) *)
Definition get_perms (group : Group) (obj : Obj) : M S (gset string) := λ w,
  (w, Ok (currentGrants (PGroup group) obj (store w))).

(** [guardian.shortcuts.get_perms_for_model(obj)]. *)
Definition get_perms_for_model (obj : Obj) : list Permission :=
  permissionsFor (content_type obj).
End Shortcuts.

(** ** The forms *)

(** [BaseObjectPermissionsForm]: the methods the four concrete forms
    inherit unchanged and that carry data (those that pick the field class,
    label and widget are presentation and are left out). *)
Module BaseObjectPermissionsForm.
Definition get_obj_perms_field_name : string := "permissions".

(** The list of [(codename, name)] pairs of the permissions of the managed
    object's type. *)
Definition get_obj_perms_field_choices `{!PermissionCatalog} (obj : Obj)
    : list (string * string) :=
  (λ p, (codename p, name p)) <$> get_perms_for_model obj.

Definition get_obj_perms_field_initial : list string := [].

Definition are_obj_perms_required : bool := false.
End BaseObjectPermissionsForm.

(** [UserObjectPermissionsForm(user, obj, data)], after validation:
    [cleaned_data] holds the selected codenames under ['permissions'].
    (Its initial selection reads [get_perms] for a user and is left out.) *)
Module UserObjectPermissionsForm.
Record cleaned := { permissions : list string }.
Record t := { user : User; obj : Obj; cleaned_data : cleaned }.

Definition save_obj_perms {S} `{!GrantStore S} `{!PermissionCatalog}
    `{!SetIteration} (self : t) : M S unit :=
  let perms := permissions (cleaned_data self) in
  let model_perms :=
    (BaseObjectPermissionsForm.get_obj_perms_field_choices (obj self)).*1 in
  let to_remove : gset string := list_to_set model_perms ∖ list_to_set perms in
  for_each (set_iter to_remove)
    (λ perm, remove_perm perm (PUser (user self)) (obj self)) ;;
  for_each perms
    (λ perm, assign perm (PUser (user self)) (obj self)).
End UserObjectPermissionsForm.

(** A [ModelChoiceField] as the add-forms build it: the candidate rows and
    whether a selection is required (label and widget are presentation and
    are left out). *)
Record ModelChoiceField (A : Type) := { queryset : list A; required : bool }.
Arguments queryset {A} _.
Arguments required {A} _.

(** [AddUserObjectPermissionsForm(obj, data)], after validation:
    [cleaned_data] holds the selected user under ['user'] and the selected
    codenames under ['permissions']. *)
Module AddUserObjectPermissionsForm.
Record cleaned := { user : User; permissions : list string }.
Record t := { obj : Obj; cleaned_data : cleaned }.

Definition get_user_field_name : string := "user".

Definition get_user_queryset `{!AuthModels} : list User := User_objects_all.

Definition get_user_field `{!AuthModels} : ModelChoiceField User :=
  {| queryset := get_user_queryset; required := true |}.

Definition get_obj_perms_field_initial : list string := [].

Definition save_obj_perms {S} `{!GrantStore S} `{!PermissionCatalog}
    `{!SetIteration} (self : t) : M S unit :=
  let user := user (cleaned_data self) in
  let perms := permissions (cleaned_data self) in
  let model_perms :=
    (BaseObjectPermissionsForm.get_obj_perms_field_choices (obj self)).*1 in
  let to_remove : gset string := list_to_set model_perms ∖ list_to_set perms in
  for_each (set_iter to_remove)
    (λ perm, remove_perm perm (PUser user) (obj self)) ;;
  for_each perms
    (λ perm, assign perm (PUser user) (obj self)).
End AddUserObjectPermissionsForm.

(** [GroupObjectPermissionsForm(group, obj, data)], after validation. *)
Module GroupObjectPermissionsForm.
Record cleaned := { permissions : list string }.
Record t := { group : Group; obj : Obj; cleaned_data : cleaned }.

Definition get_obj_perms_field_initial {S} `{!GrantStore S} (self : t)
    : M S (gset string) :=
  get_perms (group self) (obj self).

Definition save_obj_perms {S} `{!GrantStore S} `{!PermissionCatalog}
    `{!SetIteration} (self : t) : M S unit :=
  let perms := permissions (cleaned_data self) in
  let model_perms :=
    (BaseObjectPermissionsForm.get_obj_perms_field_choices (obj self)).*1 in
  let to_remove : gset string := list_to_set model_perms ∖ list_to_set perms in
  for_each (set_iter to_remove)
    (λ perm, remove_perm perm (PGroup (group self)) (obj self)) ;;
  for_each perms
    (λ perm, assign perm (PGroup (group self)) (obj self)).
End GroupObjectPermissionsForm.

(** [AddGroupObjectPermissionsForm(obj, data)], after validation. *)
Module AddGroupObjectPermissionsForm.
Record cleaned := { group : Group; permissions : list string }.
Record t := { obj : Obj; cleaned_data : cleaned }.

Definition get_group_field_name : string := "group".

Definition get_group_queryset `{!AuthModels} : list Group := Group_objects_all.

Definition get_group_field `{!AuthModels} : ModelChoiceField Group :=
  {| queryset := get_group_queryset; required := true |}.

Definition get_obj_perms_field_initial : list string := [].

Definition save_obj_perms {S} `{!GrantStore S} `{!PermissionCatalog}
    `{!SetIteration} (self : t) : M S unit :=
  let group := group (cleaned_data self) in
  let perms := permissions (cleaned_data self) in
  let model_perms :=
    (BaseObjectPermissionsForm.get_obj_perms_field_choices (obj self)).*1 in
  let to_remove : gset string := list_to_set model_perms ∖ list_to_set perms in
  for_each (set_iter to_remove)
    (λ perm, remove_perm perm (PGroup group) (obj self)) ;;
  for_each perms
    (λ perm, assign perm (PGroup group) (obj self)).
End AddGroupObjectPermissionsForm.

Module UF := UserObjectPermissionsForm.
Module AUF := AddUserObjectPermissionsForm.
Module GF := GroupObjectPermissionsForm.
Module AGF := AddGroupObjectPermissionsForm.

(** ** The reconciliation the four forms share *)

Section Reconcile.
Context {S : Type} `{!GrantStore S} `{!PermissionCatalog} `{!SetIteration}.

(** The codenames of a catalog, as a set. *)
Definition codenames (catalog : list Permission) : gset string :=
  list_to_set (codename <$> catalog).

(** [to_remove = set(model_perms) - set(perms)], with [model_perms] read off
    the field choices as the forms do. *)
Definition to_remove (obj : Obj) (perms : list string) : gset string :=
  list_to_set (BaseObjectPermissionsForm.get_obj_perms_field_choices obj).*1
  ∖ list_to_set perms.

(** The body the four [save_obj_perms] methods have in common, for the
    principal [who] each of them passes to the store. *)
Definition reconcile (who : principal) (obj : Obj) (perms : list string)
    : M S unit :=
  for_each (set_iter (to_remove obj perms)) (λ perm, remove_perm perm who obj) ;;
  for_each perms (λ perm, assign perm who obj).

(** The calls one invocation issues when none of them raises: a removal for
    each element of [to_remove], in iteration order, then an assignment for
    each element of [perms], in list order. *)
Definition planned_calls (who : principal) (obj : Obj) (perms : list string)
    : list call :=
  ((λ perm, RemovePerm perm who obj) <$> set_iter (to_remove obj perms))
  ++ ((λ perm, Assign perm who obj) <$> perms).

(** Issue the calls of a list, in order, stopping at the first that raises. *)
Definition run_calls (ks : list call) : M S unit := for_each ks issue.

(** The store after the calls of a list, when all of them succeed. *)
Fixpoint exec_all (ks : list call) (s : S) : result S :=
  match ks with
  | [] => Ok s
  | k :: ks' =>
      match exec k s with
      | Ok s' => exec_all ks' s'
      | Raise e => Raise e
      end
  end.

(** The calls journalled between two worlds of one request. *)
Definition calls_since (w w' : world S) : list call :=
  drop (length (log w)) (log w').
End Reconcile.

(** The effect of one call on the codenames [who] holds on [obj]: a removal
    deletes its codename, an assignment adds it, a call about another
    principal or object changes nothing. *)
Definition call_effect (who : principal) (obj : Obj) (k : call)
    (held : gset string) : gset string :=
  match k with
  | RemovePerm perm who' obj' =>
      if decide (who' = who ∧ obj' = obj) then held ∖ {[perm]} else held
  | Assign perm who' obj' =>
      if decide (who' = who ∧ obj' = obj) then {[perm]} ∪ held else held
  end.

(** Modelled from the spec: the contract of the grant store (the code of
    [guardian.shortcuts] is not part of [forms.py]).  A grant exists or does
    not; a successful [assign] creates the grant and a successful [remove]
    destroys it, so assigning a held grant and removing an absent one change
    nothing; grants of other principals, objects and codenames stay. *)
Class IdempotentStore (S : Type) `{!GrantStore S} : Prop := {
  assign_grants : ∀ (perm : string) (who who' : principal) (obj obj' : Obj)
      (s s' : S),
    store_assign perm who obj s = Ok s' →
    currentGrants who' obj' s' =
      if decide (who = who' ∧ obj = obj')
      then {[perm]} ∪ currentGrants who' obj' s
      else currentGrants who' obj' s;
  remove_grants : ∀ (perm : string) (who who' : principal) (obj obj' : Obj)
      (s s' : S),
    store_remove perm who obj s = Ok s' →
    currentGrants who' obj' s' =
      if decide (who = who' ∧ obj = obj')
      then currentGrants who' obj' s ∖ {[perm]}
      else currentGrants who' obj' s;
}.

(** A store that grants only what the catalog defines, as guardian's
    [assign] does: it looks the permission up by codename among those of the
    object's type and raises when there is none, so an assignment that
    succeeds carries a codename of the catalog. *)
Class CatalogCheckedStore (S : Type) `{!GrantStore S} `{!PermissionCatalog}
    : Prop :=
  assign_defined : ∀ (perm : string) (who : principal) (obj : Obj) (s s' : S),
    store_assign perm who obj s = Ok s' →
    perm ∈ codenames (get_perms_for_model obj).

(** A loop over a set visits each element once, in some order. *)
Class SetIterationOk `{!SetIteration} : Prop :=
  set_iter_elements : ∀ X : gset string, set_iter X ≡ₚ elements X.

(** ** Principal resolution of the add-forms *)

(** Modelled from the spec: [resolvePrincipal(candidateSet, selectedId)].
    The lookup is done by the [ModelChoiceField] built in [get_user_field]
    and [get_group_field] when the form is validated; its code is not part of
    [forms.py].  It returns the candidate whose key is the selected id and
    fails with [NotFoundError] when there is none. *)
Definition resolvePrincipal {A} (pk : A → Z) (candidateSet : list A)
    (selectedId : Z) : result A :=
  match list_find (λ a, pk a = selectedId) candidateSet with
  | Some (_, a) => Ok a
  | None => Raise NotFoundError
  end.

(** Modelled from the spec: the add-user request.  The selected id is
    resolved against the field's queryset; on success the validated form is
    saved with the resolved user under ['user']. *)
Definition add_user_obj_perms {S} `{!GrantStore S} `{!PermissionCatalog}
    `{!SetIteration} `{!AuthModels} (obj : Obj) (selectedId : Z)
    (perms : list string) : M S unit :=
  user ← lift (resolvePrincipal user_pk (queryset AUF.get_user_field) selectedId);
  AUF.save_obj_perms
    {| AUF.obj := obj;
       AUF.cleaned_data := {| AUF.user := user; AUF.permissions := perms |} |}.

(** Modelled from the spec: the add-group request, likewise. *)
Definition add_group_obj_perms {S} `{!GrantStore S} `{!PermissionCatalog}
    `{!SetIteration} `{!AuthModels} (obj : Obj) (selectedId : Z)
    (perms : list string) : M S unit :=
  group ← lift (resolvePrincipal group_pk (queryset AGF.get_group_field) selectedId);
  AGF.save_obj_perms
    {| AGF.obj := obj;
       AGF.cleaned_data := {| AGF.group := group; AGF.permissions := perms |} |}.

(** ** Concrete collaborators *)

(** Modelled from the spec: a grant store kept in memory.  [rows] is the set
    of grants, each a triple of principal, object and codename.  [budget] is
    the number of mutations the backend still serves before it starts
    failing with [StoreOperationError]; [None] is a backend that never
    fails. *)
Record table := {
  rows : gset (principal * Obj * string);
  budget : option nat;
}.

Definition table_update
    (f : gset (principal * Obj * string) → gset (principal * Obj * string))
    (t : table) : result table :=
  match budget t with
  | None => Ok {| rows := f (rows t); budget := None |}
  | Some O => Raise StoreOperationError
  | Some (S n) => Ok {| rows := f (rows t); budget := Some n |}
  end.

Definition table_grants (who : principal) (obj : Obj) (t : table)
    : gset string :=
  set_map snd (filter (λ r, r.1 = (who, obj)) (rows t)).

Definition table_store : GrantStore table := {|
  currentGrants := table_grants;
  store_assign perm who obj := table_update (λ r, {[ (who, obj, perm) ]} ∪ r);
  store_remove perm who obj := table_update (λ r, r ∖ {[ (who, obj, perm) ]});
|}.

(** The same table behind an [assign] that looks the codename up in a
    catalog first and raises when the object's type does not define it. *)
Definition checked_store (catalog : PermissionCatalog) : GrantStore table := {|
  currentGrants := table_grants;
  store_assign perm who obj t :=
    if decide (perm ∈ codenames (@get_perms_for_model catalog obj))
    then table_update (λ r, {[ (who, obj, perm) ]} ∪ r) t
    else Raise StoreOperationError;
  store_remove perm who obj := table_update (λ r, r ∖ {[ (who, obj, perm) ]});
|}.

(** A loop that visits a set in the order [elements] lists it. *)
Definition elements_order : SetIteration := elements.

(** A catalog with the three permissions of a blog post. *)
Definition post_catalog : PermissionCatalog := λ ty,
  if decide (ty = "post")
  then [ {| codename := "view_post"; name := "Can view post" |};
         {| codename := "change_post"; name := "Can change post" |};
         {| codename := "delete_post"; name := "Can delete post" |} ]
  else [].

Definition alice : User := {| user_pk := 1%Z; username := "alice" |}.
Definition bob : User := {| user_pk := 2%Z; username := "bob" |}.
Definition editors : Group := {| group_pk := 1%Z; group_name := "editors" |}.
Definition post1 : Obj := {| content_type := "post"; obj_pk := 1%Z |}.

Definition post_checked_store : GrantStore table := checked_store post_catalog.

Definition demo_auth : AuthModels :=
  {| User_objects_all := [alice; bob]; Group_objects_all := [editors] |}.

(** Alice can view and change the post; the same rows behind a backend that
    never fails, and behind one that serves one more mutation. *)
Definition demo_rows : gset (principal * Obj * string) :=
  {[ (PUser alice, post1, "view_post"); (PUser alice, post1, "change_post") ]}.
Definition demo_world : world table :=
  World {| rows := demo_rows; budget := None |} [].
Definition flaky_world : world table :=
  World {| rows := demo_rows; budget := Some 1 |} [].
Definition empty_world : world table :=
  World {| rows := ∅; budget := None |} [].

(** Alice also holds a grant whose codename the catalog no longer defines. *)
Definition legacy_world : world table :=
  World {| rows := {[ (PUser alice, post1, "archive_post") ]} ∪ demo_rows;
           budget := None |} [].

(** Forms as submitted in the examples. *)
Definition user_form (perms : list string) : UF.t :=
  {| UF.user := alice; UF.obj := post1;
     UF.cleaned_data := {| UF.permissions := perms |} |}.
Definition group_form (perms : list string) : GF.t :=
  {| GF.group := editors; GF.obj := post1;
     GF.cleaned_data := {| GF.permissions := perms |} |}.
Definition add_group_form (perms : list string) : AGF.t :=
  {| AGF.obj := post1;
     AGF.cleaned_data := {| AGF.group := editors; AGF.permissions := perms |} |}.

(** The object a call is about. *)
Definition call_obj (k : call) : Obj :=
  match k with
  | RemovePerm _ _ obj => obj
  | Assign _ _ obj => obj
  end.

(** Further forms and worlds for the examples. *)
Definition add_user_form (perms : list string) : AUF.t :=
  {| AUF.obj := post1;
     AUF.cleaned_data := {| AUF.user := bob; AUF.permissions := perms |} |}.

(** The group can change the post and holds a grant the catalog no longer
    defines; Bob holds the same two. *)
Definition team_world : world table :=
  World {| rows := {[ (PGroup editors, post1, "change_post");
                      (PGroup editors, post1, "archive_post");
                      (PUser bob, post1, "change_post");
                      (PUser bob, post1, "archive_post") ]};
           budget := None |} [].

(** Alice's rows behind a backend that serves two more mutations. *)
Definition flaky2_world : world table :=
  World {| rows := demo_rows; budget := Some 2 |} [].

(** A grant store whose rows for one codename are locked for a while: a
    call about the locked codename raises [StoreOperationError]; each call
    served about another codename brings the release one step closer.  It
    lets an invocation fail and a later one complete. *)
Record locked_table := {
  lrows : gset (principal * Obj * string);
  lock : option (string * nat);
}.

Definition locked_update (perm : string)
    (f : gset (principal * Obj * string) → gset (principal * Obj * string))
    (t : locked_table) : result locked_table :=
  match lock t with
  | None => Ok {| lrows := f (lrows t); lock := None |}
  | Some (locked, n) =>
      if decide (perm = locked) then Raise StoreOperationError
      else Ok {| lrows := f (lrows t);
                 lock := match n with
                         | O => None
                         | S n' => Some (locked, n')
                         end |}
  end.

Definition locked_store : GrantStore locked_table := {|
  currentGrants who obj t :=
    set_map snd (filter (λ r, r.1 = (who, obj)) (lrows t));
  store_assign perm who obj :=
    locked_update perm (λ r, {[ (who, obj, perm) ]} ∪ r);
  store_remove perm who obj :=
    locked_update perm (λ r, r ∖ {[ (who, obj, perm) ]});
|}.

(** Alice's rows, with [view_post] locked until two other calls are
    served. *)
Definition locked_world : world locked_table :=
  World {| lrows := demo_rows; lock := Some ("view_post", 1) |} [].

(** Equations and inclusions between sets of codenames, element by
    element. *)
Ltac by_elements := set_unfold; intuition (subst; eauto; congruence).

(** * Properties *)

(** ** The monad and the journal *)

Section Journal.
Context {S : Type} `{!GrantStore S}.

Lemma bind_run {A B} (m : M S A) (f : A → M S B) (w : world S) :
  (m ≫= f) w =
  match m w with
  | (w', Ok a) => f a w'
  | (w', Raise e) => (w', Raise e)
  end.
Proof. reflexivity. Qed.

Lemma run_calls_nil (w : world S) : run_calls [] w = (w, Ok tt).
Proof. reflexivity. Qed.

Lemma run_calls_cons (k : call) (ks : list call) (w : world S) :
  run_calls (k :: ks) w =
  match exec k (store w) with
  | Ok s' => run_calls ks (World s' (log w ++ [k]))
  | Raise e => (World (store w) (log w ++ [k]), Raise e)
  end.
Proof.
  unfold run_calls; simpl. rewrite bind_run. unfold issue.
  by destruct (exec k (store w)).
Qed.

(** A loop whose body issues one call per element is the run of the mapped
    list of calls. *)
Lemma for_each_issue {A} (f : A → call) (l : list A) (w : world S) :
  for_each l (λ x, issue (f x)) w = run_calls (f <$> l) w.
Proof.
  revert w. induction l as [|x l IH]; intros w; [done|].
  rewrite fmap_cons, run_calls_cons. simpl. rewrite bind_run. unfold issue.
  destruct (exec (f x) (store w)); [apply IH | done].
Qed.

Lemma run_calls_app (ks1 ks2 : list call) (w : world S) :
  run_calls (ks1 ++ ks2) w = (run_calls ks1 ;; run_calls ks2) w.
Proof.
  revert w. induction ks1 as [|k ks1 IH]; intros w.
  - by rewrite bind_run, run_calls_nil.
  - rewrite bind_run. simpl. rewrite !run_calls_cons.
    destruct (exec k (store w)); [|done].
    by rewrite IH, bind_run.
Qed.

(** When every call succeeds, all are journalled and all are applied. *)
Lemma run_calls_all (ks : list call) (w : world S) (s' : S) :
  exec_all ks (store w) = Ok s' →
  run_calls ks w = (World s' (log w ++ ks), Ok tt).
Proof.
  revert w. induction ks as [|k ks IH]; intros w; simpl.
  - intros [= <-]. rewrite run_calls_nil, app_nil_r. by destruct w.
  - rewrite run_calls_cons. destruct (exec k (store w)) as [s1|e]; [|done].
    intros Hall. rewrite (IH (World s1 (log w ++ [k])) Hall). simpl.
    by rewrite <-app_assoc.
Qed.

(** When a call raises after the calls before it succeeded, the run stops
    there: the failing call is the last one journalled, the error is the
    result, and the store is the one the earlier calls left. *)
Lemma run_calls_stop (pre post : list call) (k : call) (w : world S)
    (s1 : S) (e : error) :
  exec_all pre (store w) = Ok s1 →
  exec k s1 = Raise e →
  run_calls (pre ++ k :: post) w = (World s1 (log w ++ pre ++ [k]), Raise e).
Proof.
  revert w. induction pre as [|k0 pre IH]; intros w; simpl.
  - intros [= <-] Hk. by rewrite run_calls_cons, Hk.
  - rewrite run_calls_cons. destruct (exec k0 (store w)) as [s0|e0]; [|done].
    intros Hall Hk. rewrite (IH (World s0 (log w ++ [k0])) Hall Hk). simpl.
    by rewrite <-app_assoc.
Qed.

(** Every run is of one of the two kinds. *)
Lemma exec_all_cases (ks : list call) (s : S) :
  (∃ s', exec_all ks s = Ok s') ∨
  (∃ pre k post s1 e,
      ks = pre ++ k :: post ∧ exec_all pre s = Ok s1 ∧ exec k s1 = Raise e).
Proof.
  revert s. induction ks as [|k ks IH]; intros s; simpl.
  - left; eauto.
  - destruct (exec k s) as [s1|e] eqn:Hk.
    + destruct (IH s1) as [[s' Hs']|(pre & k' & post & s2 & e & -> & Hpre & Hk')].
      * left; eauto.
      * right. exists (k :: pre), k', post, s2, e. simpl. by rewrite Hk.
    + right. by exists [], k, ks, s, e.
Qed.

Lemma run_calls_inv (ks : list call) (w w' : world S) (r : result unit) :
  run_calls ks w = (w', r) →
  (r = Ok tt ∧ exec_all ks (store w) = Ok (store w') ∧ log w' = log w ++ ks) ∨
  (∃ pre k post e,
      r = Raise e ∧ ks = pre ++ k :: post ∧
      exec_all pre (store w) = Ok (store w') ∧
      exec k (store w') = Raise e ∧
      log w' = log w ++ pre ++ [k]).
Proof.
  intros Hrun.
  destruct (exec_all_cases ks (store w))
    as [[s' Hs']|(pre & k & post & s1 & e & -> & Hpre & Hk)].
  - rewrite (run_calls_all _ _ _ Hs') in Hrun. injection Hrun as <- <-. by left.
  - rewrite (run_calls_stop _ _ _ _ _ _ Hpre Hk) in Hrun.
    injection Hrun as <- <-. right. by exists pre, k, post, e.
Qed.

(** Whatever the outcome, the journal grew by a prefix of the list, and the
    store is the result of applying a prefix of it. *)
Lemma run_calls_prefix (ks : list call) (w w' : world S) (r : result unit) :
  run_calls ks w = (w', r) →
  calls_since w w' `prefix_of` ks ∧
  ∃ applied, applied `prefix_of` ks ∧ exec_all applied (store w) = Ok (store w').
Proof.
  intros Hrun. unfold calls_since.
  destruct (run_calls_inv _ _ _ _ Hrun)
    as [(-> & Hall & ->)|(pre & k & post & e & -> & -> & Hpre & Hk & ->)].
  - rewrite drop_app_length. split; [done|]. by exists ks.
  - rewrite drop_app_length. split.
    + exists post. by rewrite <-app_assoc.
    + exists pre. split; [by apply prefix_app_r|done].
Qed.
End Journal.

(** ** The forms as runs of their planned calls *)

Section Plans.
Context {S : Type} `{!GrantStore S} `{!PermissionCatalog} `{!SetIteration}.

Lemma model_perms_codenames (obj : Obj) :
  (BaseObjectPermissionsForm.get_obj_perms_field_choices obj).*1
  = codename <$> get_perms_for_model obj.
Proof.
  unfold BaseObjectPermissionsForm.get_obj_perms_field_choices.
  rewrite <-list_fmap_compose. by apply list_fmap_ext.
Qed.

Lemma to_remove_difference (obj : Obj) (perms : list string) :
  to_remove obj perms = codenames (get_perms_for_model obj) ∖ list_to_set perms.
Proof. unfold to_remove, codenames. by rewrite model_perms_codenames. Qed.

Lemma reconcile_run (who : principal) (obj : Obj) (perms : list string)
    (w : world S) :
  reconcile who obj perms w = run_calls (planned_calls who obj perms) w.
Proof.
  unfold reconcile, planned_calls, remove_perm, assign.
  rewrite run_calls_app, !bind_run, for_each_issue.
  destruct (run_calls _ w) as [w1 [[]|e]]; [|done].
  apply for_each_issue.
Qed.

Lemma user_form_run (self : UF.t) (w : world S) :
  UF.save_obj_perms self w =
  run_calls (planned_calls (PUser (UF.user self)) (UF.obj self)
               (UF.permissions (UF.cleaned_data self))) w.
Proof. apply reconcile_run. Qed.

Lemma add_user_form_run (self : AUF.t) (w : world S) :
  AUF.save_obj_perms self w =
  run_calls (planned_calls (PUser (AUF.user (AUF.cleaned_data self)))
               (AUF.obj self) (AUF.permissions (AUF.cleaned_data self))) w.
Proof. apply reconcile_run. Qed.

Lemma group_form_run (self : GF.t) (w : world S) :
  GF.save_obj_perms self w =
  run_calls (planned_calls (PGroup (GF.group self)) (GF.obj self)
               (GF.permissions (GF.cleaned_data self))) w.
Proof. apply reconcile_run. Qed.

Lemma add_group_form_run (self : AGF.t) (w : world S) :
  AGF.save_obj_perms self w =
  run_calls (planned_calls (PGroup (AGF.group (AGF.cleaned_data self)))
               (AGF.obj self) (AGF.permissions (AGF.cleaned_data self))) w.
Proof. apply reconcile_run. Qed.

(** What the planned calls mention. *)
Lemma planned_remove_inv `{!SetIterationOk} (who who' : principal)
    (obj obj' : Obj) (perms : list string) (perm : string) :
  RemovePerm perm who' obj' ∈ planned_calls who obj perms →
  who' = who ∧ obj' = obj ∧ perm ∈ to_remove obj perms.
Proof.
  unfold planned_calls. rewrite elem_of_app, !list_elem_of_fmap.
  intros [(c & [= -> -> ->] & Hc)|(c & [=] & _)].
  rewrite set_iter_elements, elem_of_elements in Hc. done.
Qed.

Lemma planned_assign_inv (who who' : principal) (obj obj' : Obj)
    (perms : list string) (perm : string) :
  Assign perm who' obj' ∈ planned_calls who obj perms →
  who' = who ∧ obj' = obj ∧ perm ∈ perms.
Proof.
  unfold planned_calls. rewrite elem_of_app, !list_elem_of_fmap.
  by intros [(c & [=] & _)|(c & [= -> -> ->] & Hc)].
Qed.
End Plans.

(** ** Grants after a run, on a store that honours its contract *)

Section Grants.
Context {S : Type} `{!GrantStore S} `{!IdempotentStore S}.

Lemma exec_grants (k : call) (s s' : S) (who : principal) (obj : Obj) :
  exec k s = Ok s' →
  currentGrants who obj s' = call_effect who obj k (currentGrants who obj s).
Proof.
  destruct k as [perm who' obj'|perm who' obj']; simpl; intros Hk.
  - by rewrite (remove_grants _ _ who _ obj _ _ Hk).
  - by rewrite (assign_grants _ _ who _ obj _ _ Hk).
Qed.

Lemma exec_all_grants (ks : list call) (s s' : S) (who : principal) (obj : Obj) :
  exec_all ks s = Ok s' →
  currentGrants who obj s' =
  foldl (λ held k, call_effect who obj k held) (currentGrants who obj s) ks.
Proof.
  revert s. induction ks as [|k ks IH]; intros s; simpl.
  - by intros [= <-].
  - destruct (exec k s) as [s1|e] eqn:Hk; [|done].
    intros Hall. by rewrite (IH _ Hall), (exec_grants _ _ _ _ _ Hk).
Qed.
End Grants.

(** The fold of call effects, computed for the shapes that occur. *)
Section Effects.
Implicit Types (held : gset string) (ks : list call).

Lemma effects_app who obj held ks1 ks2 :
  foldl (λ h k, call_effect who obj k h) held (ks1 ++ ks2)
  = foldl (λ h k, call_effect who obj k h)
      (foldl (λ h k, call_effect who obj k h) held ks1) ks2.
Proof. apply foldl_app. Qed.

Lemma effects_removals who obj held (l : list string) :
  foldl (λ h k, call_effect who obj k h) held
    ((λ perm, RemovePerm perm who obj) <$> l)
  = held ∖ list_to_set l.
Proof.
  revert held. induction l as [|c l IH]; intros held; simpl.
  - by_elements.
  - rewrite decide_True by done. rewrite IH. by_elements.
Qed.

Lemma effects_assignments who obj held (l : list string) :
  foldl (λ h k, call_effect who obj k h) held
    ((λ perm, Assign perm who obj) <$> l)
  = list_to_set l ∪ held.
Proof.
  revert held. induction l as [|c l IH]; intros held; simpl.
  - by_elements.
  - rewrite decide_True by done. rewrite IH. by_elements.
Qed.

(** A codename held after a run was held before or was assigned; one held
    before is held after or was removed. *)
Lemma effects_bounds who obj held ks (c : string) :
  (c ∈ foldl (λ h k, call_effect who obj k h) held ks →
   c ∈ held ∨ Assign c who obj ∈ ks) ∧
  (c ∈ held →
   c ∈ foldl (λ h k, call_effect who obj k h) held ks ∨
   RemovePerm c who obj ∈ ks).
Proof.
  revert held. induction ks as [|k ks IH]; intros held; simpl; [by auto|].
  destruct (IH (call_effect who obj k held)) as [IH1 IH2].
  setoid_rewrite elem_of_cons. clear IH.
  destruct k as [perm who' obj'|perm who' obj']; simpl in *;
    destruct (decide (who' = who ∧ obj' = obj)) as [[-> ->]|Hne].
  - split; [intros Hc; destruct (IH1 Hc) as [Hk|Hk]; by_elements|].
    intros Hc. destruct (decide (c = perm)) as [->|Hcp]; [by auto|].
    destruct IH2 as [Hk|Hk]; [by_elements|by auto..].
  - split; [intros Hc; destruct (IH1 Hc); by auto|].
    intros Hc. destruct (IH2 Hc); by auto.
  - split.
    + intros Hc. destruct (IH1 Hc) as [Hk|Hk]; [|by auto].
      apply elem_of_union in Hk as [Hk|Hk]; [|by auto].
      apply elem_of_singleton in Hk as ->. by auto.
    + intros Hc. destruct IH2 as [Hk|Hk]; [by_elements|by auto..].
  - split; [intros Hc; destruct (IH1 Hc); by auto|].
    intros Hc. destruct (IH2 Hc); by auto.
Qed.

(** Calls that change nothing one by one change nothing together. *)
Lemma effects_noop who obj held ks :
  (∀ k, k ∈ ks → call_effect who obj k held = held) →
  foldl (λ h k, call_effect who obj k h) held ks = held.
Proof.
  induction ks as [|k ks IH]; simpl; [done|]. intros Hks.
  rewrite (Hks k) by constructor. apply IH. intros k' Hk'. apply Hks.
  by constructor.
Qed.
End Effects.

(** ** Grants after a reconciliation *)

Section Reconciled.
Context {S : Type} `{!GrantStore S} `{!PermissionCatalog} `{!SetIteration}.
Context `{!IdempotentStore S} `{!SetIterationOk}.

Lemma set_iter_to_set (X : gset string) : list_to_set (set_iter X) = X.
Proof.
  apply set_eq. intros c.
  by rewrite elem_of_list_to_set, set_iter_elements, elem_of_elements.
Qed.

(** A call about another principal or object has no effect on this pair. *)
Lemma planned_effect_other (who who' : principal) (obj obj' : Obj)
    (perms : list string) (k : call) (held : gset string) :
  ¬ (who = who' ∧ obj = obj') →
  k ∈ planned_calls who obj perms →
  call_effect who' obj' k held = held.
Proof.
  intros Hne Hk. destruct k as [c who1 obj1|c who1 obj1]; simpl.
  - apply planned_remove_inv in Hk as (-> & -> & _). by rewrite decide_False.
  - apply planned_assign_inv in Hk as (-> & -> & _). by rewrite decide_False.
Qed.

(** After a run in which no call raised: the pair holds the selected
    codenames and what it held outside [to_remove]; other pairs hold what
    they held. *)
Lemma planned_grants_ok (who : principal) (obj : Obj) (perms : list string)
    (w w' : world S) :
  run_calls (planned_calls who obj perms) w = (w', Ok tt) →
  currentGrants who obj (store w') =
    list_to_set perms ∪ (currentGrants who obj (store w) ∖ to_remove obj perms).
Proof.
  intros Hrun.
  destruct (run_calls_inv _ _ _ _ Hrun)
    as [(_ & Hall & _)|(? & ? & ? & ? & [=] & _)].
  rewrite (exec_all_grants _ _ _ who obj Hall). unfold planned_calls.
  rewrite effects_app, effects_removals, effects_assignments.
  by rewrite set_iter_to_set.
Qed.

(** After any run, complete or cut short by a raise. *)
Lemma planned_grants_bounds (who : principal) (obj : Obj) (perms : list string)
    (w w' : world S) (r : result unit) (c : string) :
  run_calls (planned_calls who obj perms) w = (w', r) →
  (c ∈ currentGrants who obj (store w') →
   c ∈ currentGrants who obj (store w) ∨ c ∈ perms) ∧
  (c ∈ currentGrants who obj (store w) →
   c ∈ currentGrants who obj (store w') ∨ c ∈ to_remove obj perms).
Proof.
  intros Hrun.
  destruct (run_calls_prefix _ _ _ _ Hrun) as (_ & applied & Hpre & Hall).
  rewrite (exec_all_grants _ _ _ who obj Hall).
  destruct (effects_bounds who obj (currentGrants who obj (store w)) applied c)
    as [Hup Hdown].
  split.
  - intros Hc. destruct (Hup Hc) as [?|Hk]; [by left|right].
    apply (elem_of_prefix _ _ _ Hk) in Hpre as Hk'.
    by apply planned_assign_inv in Hk' as (_ & _ & ?).
  - intros Hc. destruct (Hdown Hc) as [?|Hk]; [by left|right].
    apply (elem_of_prefix _ _ _ Hk) in Hpre as Hk'.
    by apply planned_remove_inv in Hk' as (_ & _ & ?).
Qed.

Lemma planned_grants_other (who who' : principal) (obj obj' : Obj)
    (perms : list string) (w w' : world S) (r : result unit) :
  ¬ (who = who' ∧ obj = obj') →
  run_calls (planned_calls who obj perms) w = (w', r) →
  currentGrants who' obj' (store w') = currentGrants who' obj' (store w).
Proof.
  intros Hne Hrun.
  destruct (run_calls_prefix _ _ _ _ Hrun) as (_ & applied & Hpre & Hall).
  rewrite (exec_all_grants _ _ _ who' obj' Hall).
  apply effects_noop. intros k Hk.
  eapply planned_effect_other; [exact Hne|].
  exact (elem_of_prefix _ _ _ Hk Hpre).
Qed.

(** Once the pair holds the selected codenames and nothing of [to_remove],
    no planned call changes what it holds. *)
Lemma planned_effect_settled (who : principal) (obj : Obj)
    (perms : list string) (k : call) (held : gset string) :
  list_to_set perms ⊆ held →
  held ## to_remove obj perms →
  k ∈ planned_calls who obj perms →
  call_effect who obj k held = held.
Proof.
  intros Hsub Hdisj Hk. destruct k as [c who1 obj1|c who1 obj1]; simpl.
  - apply planned_remove_inv in Hk as (-> & -> & Hc).
    rewrite decide_True by done.
    apply set_eq. intros x. rewrite elem_of_difference, elem_of_singleton.
    split; [by intros [? _]|]. intros Hx. split; [done|]. intros ->.
    exact (Hdisj _ Hx Hc).
  - apply planned_assign_inv in Hk as (-> & -> & Hc).
    rewrite decide_True by done.
    apply set_eq. intros x. rewrite elem_of_union, elem_of_singleton.
    split; [|by right]. intros [->|?]; [|done].
    apply Hsub. by apply elem_of_list_to_set.
Qed.

Lemma planned_grants_settled (who : principal) (obj : Obj)
    (perms : list string) (w w' : world S) (r : result unit) :
  list_to_set perms ⊆ currentGrants who obj (store w) →
  currentGrants who obj (store w) ## to_remove obj perms →
  run_calls (planned_calls who obj perms) w = (w', r) →
  currentGrants who obj (store w') = currentGrants who obj (store w).
Proof.
  intros Hsub Hdisj Hrun.
  destruct (run_calls_prefix _ _ _ _ Hrun) as (_ & applied & Hpre & Hall).
  rewrite (exec_all_grants _ _ _ who obj Hall).
  apply effects_noop. intros k Hk.
  eapply planned_effect_settled; [exact Hsub|exact Hdisj|].
  exact (elem_of_prefix _ _ _ Hk Hpre).
Qed.
End Reconciled.

(** ** The concrete collaborators honour their contracts *)

Lemma elem_of_table_grants (who : principal) (obj : Obj) (t : table)
    (c : string) :
  c ∈ table_grants who obj t ↔ (who, obj, c) ∈ rows t.
Proof.
  unfold table_grants. rewrite elem_of_map. split.
  - intros ([[who' obj'] c'] & -> & Hin).
    apply elem_of_filter in Hin as [Heq Hin]. simpl in Heq.
    by injection Heq as -> ->.
  - intros Hin. exists (who, obj, c). split; [done|].
    by apply elem_of_filter.
Qed.

Lemma table_update_rows f (t t' : table) :
  table_update f t = Ok t' → rows t' = f (rows t).
Proof.
  unfold table_update. destruct (budget t) as [[|n]|]; by intros [= <-].
Qed.

Lemma table_store_idempotent : @IdempotentStore table table_store.
Proof.
  split; simpl; intros perm who who' obj obj' s s' Hup%table_update_rows;
    apply set_eq; intros c; case_decide as Hd;
    rewrite ?elem_of_union, ?elem_of_difference, ?elem_of_singleton,
      !elem_of_table_grants, Hup,
      ?elem_of_union, ?elem_of_difference, ?elem_of_singleton.
  - destruct Hd as [-> ->]. split; [intros [[= ->]|?]|intros [->|?]]; auto.
  - split; [intros [[= -> -> ->]|?]|]; auto. by destruct Hd.
  - destruct Hd as [-> ->].
    split; (intros [? Hne]; split; [done|]); intros Heq; apply Hne;
      congruence.
  - split; [by intros [? _]|]. intros Hin. split; [done|].
    intros [= -> -> ->]. by destruct Hd.
Qed.

Lemma elements_order_ok : @SetIterationOk elements_order.
Proof. intros X. reflexivity. Qed.

(** On a backend that never fails every call succeeds, so [save_obj_perms]
    always completes there. *)
Lemma table_exec_all_reliable (ks : list call) (t : table) :
  budget t = None → ∃ t', @exec_all table table_store ks t = Ok t'.
Proof.
  revert t. induction ks as [|k ks IH]; intros t Ht; simpl; [by eauto|].
  assert (∃ t1, @exec table table_store k t = Ok t1 ∧ budget t1 = None)
    as (t1 & -> & Ht1).
  { destruct k; simpl; unfold table_update; rewrite Ht; by eauto. }
  by apply IH.
Qed.

Lemma save_obj_perms_completes (catalog : PermissionCatalog)
    (order : SetIteration) (self : UF.t) (w : world table) :
  budget (store w) = None →
  ∃ w', @UF.save_obj_perms table table_store catalog order self w = (w', Ok tt).
Proof.
  intros Hw. rewrite user_form_run.
  destruct (table_exec_all_reliable
              (planned_calls (PUser (UF.user self)) (UF.obj self)
                 (UF.permissions (UF.cleaned_data self))) (store w) Hw)
    as [t' Ht'].
  rewrite (run_calls_all _ _ _ Ht'). by eauto.
Qed.

(** ** Claims about the calls issued *)

Section Calls.
Context {S : Type} `{!GrantStore S} `{!PermissionCatalog} `{!SetIteration}.

(** A prefix of the planned calls is some removals followed by some
    assignments, and it has an assignment only when it has every removal. *)
Lemma planned_prefix_shape (who : principal) (obj : Obj) (perms : list string)
    (ks : list call) :
  ks `prefix_of` planned_calls who obj perms →
  ∃ removed assigned : list string,
    ks = ((λ perm, RemovePerm perm who obj) <$> removed)
         ++ ((λ perm, Assign perm who obj) <$> assigned) ∧
    (assigned ≠ [] → removed = set_iter (to_remove obj perms)).
Proof.
  intros [rest Hrest]. unfold planned_calls in Hrest.
  assert (ks = take (length ks) (ks ++ rest)) as Hks
    by (by rewrite take_app_length).
  rewrite <-Hrest, take_app, <-!fmap_take, length_fmap in Hks.
  eexists _, _. split; [exact Hks|]. intros Hne.
  apply take_ge.
  destruct (decide (length (set_iter (to_remove obj perms)) ≤ length ks)%nat)
    as [|Hlt]; [done|].
  exfalso. apply Hne.
  replace (length ks - length (set_iter (to_remove obj perms)))%nat
    with 0%nat by lia.
  apply take_0.
Qed.

(** C3: when a store call of [save_obj_perms] raises after the calls before
    it succeeded, the method raises the same error, the failing call is the
    last one issued (the calls planned after it are not), and the store is
    the one the earlier calls produced: their mutations stay. *)
Theorem save_obj_perms_aborts (self : UF.t) (w : world S)
    (done_calls abandoned : list call) (failing : call) (s1 : S) (e : error) :
  planned_calls (PUser (UF.user self)) (UF.obj self)
    (UF.permissions (UF.cleaned_data self))
  = done_calls ++ failing :: abandoned →
  exec_all done_calls (store w) = Ok s1 →
  exec failing s1 = Raise e →
  UF.save_obj_perms self w
  = (World s1 (log w ++ done_calls ++ [failing]), Raise e).
Proof.
  intros Hplan Hdone Hfail. rewrite user_form_run, Hplan.
  by apply run_calls_stop.
Qed.

(** C9: in one invocation the calls issued are removals followed by
    assignments, and an assignment is issued only after every removal of
    [to_remove] has been; for the user form and for the add-group form. *)
Theorem removals_before_assignments :
  (∀ (self : UF.t) (w : world S),
     ∃ removed assigned : list string,
       calls_since w (UF.save_obj_perms self w).1
       = ((λ perm, RemovePerm perm (PUser (UF.user self)) (UF.obj self))
            <$> removed)
         ++ ((λ perm, Assign perm (PUser (UF.user self)) (UF.obj self))
               <$> assigned) ∧
       (assigned ≠ [] →
        removed = set_iter (to_remove (UF.obj self)
                              (UF.permissions (UF.cleaned_data self))))) ∧
  (∀ (self : AGF.t) (w : world S),
     ∃ removed assigned : list string,
       calls_since w (AGF.save_obj_perms self w).1
       = ((λ perm, RemovePerm perm (PGroup (AGF.group (AGF.cleaned_data self)))
                     (AGF.obj self)) <$> removed)
         ++ ((λ perm, Assign perm (PGroup (AGF.group (AGF.cleaned_data self)))
                        (AGF.obj self)) <$> assigned) ∧
       (assigned ≠ [] →
        removed = set_iter (to_remove (AGF.obj self)
                              (AGF.permissions (AGF.cleaned_data self))))).
Proof.
  split; intros self w.
  - rewrite user_form_run. apply planned_prefix_shape.
    destruct (run_calls _ w) as [w' r] eqn:Hrun.
    by apply run_calls_prefix in Hrun as [? _].
  - rewrite add_group_form_run. apply planned_prefix_shape.
    destruct (run_calls _ w) as [w' r] eqn:Hrun.
    by apply run_calls_prefix in Hrun as [? _].
Qed.

Context `{!SetIterationOk}.

(** C4: an invocation in which no call raises issues one removal for each
    element of the set difference of the catalog's codenames and the
    selected codenames, then one assignment for each selected codename, in
    the order selected, whatever the principal already holds. *)
Theorem save_obj_perms_calls (self : UF.t) (w w' : world S) :
  UF.save_obj_perms self w = (w', Ok tt) →
  ∃ removed : list string,
    removed ≡ₚ elements (codenames (get_perms_for_model (UF.obj self))
                         ∖ list_to_set (UF.permissions (UF.cleaned_data self))) ∧
    calls_since w w'
    = ((λ perm, RemovePerm perm (PUser (UF.user self)) (UF.obj self))
         <$> removed)
      ++ ((λ perm, Assign perm (PUser (UF.user self)) (UF.obj self))
            <$> UF.permissions (UF.cleaned_data self)).
Proof.
  rewrite user_form_run. intros Hrun.
  destruct (run_calls_inv _ _ _ _ Hrun)
    as [(_ & _ & Hlog)|(? & ? & ? & ? & [=] & _)].
  exists (set_iter (to_remove (UF.obj self)
                      (UF.permissions (UF.cleaned_data self)))).
  split.
  - rewrite set_iter_elements. by rewrite to_remove_difference.
  - unfold calls_since. by rewrite Hlog, drop_app_length.
Qed.

(** C7: the set to remove and the selected codenames are disjoint, and no
    invocation issues both a removal and an assignment of one codename. *)
Theorem save_obj_perms_disjoint (self : UF.t) (w : world S) :
  to_remove (UF.obj self) (UF.permissions (UF.cleaned_data self))
  ∩ list_to_set (UF.permissions (UF.cleaned_data self)) = ∅ ∧
  ∀ (c : string) (who1 who2 : principal) (obj1 obj2 : Obj),
    RemovePerm c who1 obj1 ∈ calls_since w (UF.save_obj_perms self w).1 →
    Assign c who2 obj2 ∉ calls_since w (UF.save_obj_perms self w).1.
Proof.
  split.
  - unfold to_remove. by_elements.
  - intros c who1 who2 obj1 obj2 Hrem Hass. rewrite user_form_run in Hrem, Hass.
    destruct (run_calls _ w) as [w' r] eqn:Hrun.
    apply run_calls_prefix in Hrun as [Hpre _]. simpl in Hrem, Hass.
    apply (elem_of_prefix _ _ _ Hrem) in Hpre as Hrem'.
    apply (elem_of_prefix _ _ _ Hass) in Hpre as Hass'.
    apply planned_remove_inv in Hrem' as (_ & _ & Hc).
    apply planned_assign_inv in Hass' as (_ & _ & Hc').
    unfold to_remove in Hc. apply elem_of_difference in Hc as [_ Hc].
    apply Hc. by apply elem_of_list_to_set.
Qed.
End Calls.

(** ** Claims about the grants stored *)

Section Stored.
Context {S : Type} `{!GrantStore S} `{!PermissionCatalog} `{!SetIteration}.
Context `{!IdempotentStore S} `{!SetIterationOk}.

(** After a run in which no call raised, what the pair holds within the
    catalog is what was selected within the catalog. *)
Lemma planned_grants_scoped (who : principal) (obj : Obj)
    (perms : list string) (w w' : world S) :
  run_calls (planned_calls who obj perms) w = (w', Ok tt) →
  currentGrants who obj (store w') ∩ codenames (get_perms_for_model obj)
  = list_to_set perms ∩ codenames (get_perms_for_model obj).
Proof.
  intros Hrun. rewrite (planned_grants_ok _ _ _ _ _ Hrun), to_remove_difference.
  apply set_eq. intros c.
  rewrite !elem_of_intersection, elem_of_union, !elem_of_difference.
  split; [|by intros [? ?]; auto].
  intros [[?|[? Hout]] ?]; [done|]. split; [|done].
  destruct (decide (c ∈ (list_to_set perms : gset string))); [done|].
  exfalso. by apply Hout.
Qed.

(** C1: when the selected codenames all belong to the catalog and
    [save_obj_perms] completes on a store that honours its contract, the
    codenames the user holds on the object, restricted to the catalog, are
    exactly the selected ones. *)
Theorem save_obj_perms_exact (self : UF.t) (w w' : world S) :
  list_to_set (UF.permissions (UF.cleaned_data self))
    ⊆ codenames (get_perms_for_model (UF.obj self)) →
  UF.save_obj_perms self w = (w', Ok tt) →
  currentGrants (PUser (UF.user self)) (UF.obj self) (store w')
    ∩ codenames (get_perms_for_model (UF.obj self))
  = list_to_set (UF.permissions (UF.cleaned_data self)).
Proof.
  intros Hsub Hrun. rewrite user_form_run in Hrun.
  rewrite (planned_grants_scoped _ _ _ _ _ Hrun).
  apply set_eq. intros c. rewrite elem_of_intersection.
  split; [by intros [? _]|]. intros Hc. split; [done|]. by apply Hsub.
Qed.

(** What a run, complete or not, does to a codename outside the catalog. *)
Lemma planned_frame (who : principal) (obj : Obj) (perms : list string)
    (w w' : world S) (r : result unit) (c : string) :
  run_calls (planned_calls who obj perms) w = (w', r) →
  c ∉ codenames (get_perms_for_model obj) →
  (∀ who' obj', RemovePerm c who' obj' ∉ calls_since w w') ∧
  (c ∈ currentGrants who obj (store w) → c ∈ currentGrants who obj (store w')) ∧
  (c ∉ perms →
   (∀ who' obj', Assign c who' obj' ∉ calls_since w w') ∧
   (c ∈ currentGrants who obj (store w') → c ∈ currentGrants who obj (store w))).
Proof.
  intros Hrun Hout.
  assert (c ∉ to_remove obj perms) as Hkeep.
  { rewrite to_remove_difference, elem_of_difference. by intros [? _]. }
  destruct (planned_grants_bounds who obj perms w w' r c Hrun) as [Hup Hdown].
  destruct (run_calls_prefix _ _ _ _ Hrun) as [Hpre _].
  split; [|split].
  - intros who' obj' Hk. apply (elem_of_prefix _ _ _ Hk) in Hpre.
    by apply planned_remove_inv in Hpre as (_ & _ & ?).
  - intros Hc. by destruct (Hdown Hc).
  - intros Hnew. split.
    + intros who' obj' Hk. apply (elem_of_prefix _ _ _ Hk) in Hpre.
      by apply planned_assign_inv in Hpre as (_ & _ & ?).
    + intros Hc. by destruct (Hup Hc).
Qed.

(** On any store that honours its contract: for a codename outside the
    catalog, whatever was selected, no removal is issued and a grant held
    before is held after; and when the codename is not among the selected
    ones, no assignment is issued either and a grant held after was held
    before.  For the user form and for the group form, and for complete runs
    as for runs cut short by a raise. *)
Theorem save_obj_perms_frame :
  (∀ (self : UF.t) (w w' : world S) (r : result unit) (c : string),
     UF.save_obj_perms self w = (w', r) →
     c ∉ codenames (get_perms_for_model (UF.obj self)) →
     (∀ who' obj', RemovePerm c who' obj' ∉ calls_since w w') ∧
     (c ∈ currentGrants (PUser (UF.user self)) (UF.obj self) (store w) →
      c ∈ currentGrants (PUser (UF.user self)) (UF.obj self) (store w')) ∧
     (c ∉ UF.permissions (UF.cleaned_data self) →
      (∀ who' obj', Assign c who' obj' ∉ calls_since w w') ∧
      (c ∈ currentGrants (PUser (UF.user self)) (UF.obj self) (store w') →
       c ∈ currentGrants (PUser (UF.user self)) (UF.obj self) (store w)))) ∧
  (∀ (self : GF.t) (w w' : world S) (r : result unit) (c : string),
     GF.save_obj_perms self w = (w', r) →
     c ∉ codenames (get_perms_for_model (GF.obj self)) →
     (∀ who' obj', RemovePerm c who' obj' ∉ calls_since w w') ∧
     (c ∈ currentGrants (PGroup (GF.group self)) (GF.obj self) (store w) →
      c ∈ currentGrants (PGroup (GF.group self)) (GF.obj self) (store w')) ∧
     (c ∉ GF.permissions (GF.cleaned_data self) →
      (∀ who' obj', Assign c who' obj' ∉ calls_since w w') ∧
      (c ∈ currentGrants (PGroup (GF.group self)) (GF.obj self) (store w') →
       c ∈ currentGrants (PGroup (GF.group self)) (GF.obj self) (store w)))).
Proof.
  split; intros self w w' r c Hrun Hout.
  - rewrite user_form_run in Hrun. by eapply planned_frame.
  - rewrite group_form_run in Hrun. by eapply planned_frame.
Qed.

(** C5: after [save_obj_perms] has completed, calling it again with the
    same selection changes no stored grant, of this user or of anyone else,
    whether the second call completes or is cut short by a raise. *)
Theorem save_obj_perms_idempotent (self : UF.t) (w0 w1 w2 : world S)
    (r : result unit) :
  UF.save_obj_perms self w0 = (w1, Ok tt) →
  UF.save_obj_perms self w1 = (w2, r) →
  ∀ (who : principal) (obj : Obj),
    currentGrants who obj (store w2) = currentGrants who obj (store w1).
Proof.
  rewrite !user_form_run. intros Hfirst Hsecond who obj.
  destruct (decide (PUser (UF.user self) = who ∧ UF.obj self = obj))
    as [[<- <-]|Hne]; [|by eapply planned_grants_other].
  eapply planned_grants_settled; [| |exact Hsecond];
    rewrite (planned_grants_ok _ _ _ _ _ Hfirst).
  - apply union_subseteq_l.
  - apply elem_of_disjoint.
    intros c [Hc|[_ Hc]%elem_of_difference]%elem_of_union Hr; [|done].
    unfold to_remove in Hr. by apply elem_of_difference in Hr as [_ Hr].
Qed.

(** C6: when two selections are saved in sequence for one user and object,
    the grants held within the catalog at the end are the second selection
    within the catalog; they are the same whatever the first selection and
    the store it started from were. *)
Theorem save_obj_perms_no_hysteresis (user : User) (obj : Obj)
    (D1 D1' D2 : list string) (wa wa1 wa2 wb wb1 wb2 : world S) :
  let form perms :=
    {| UF.user := user; UF.obj := obj;
       UF.cleaned_data := {| UF.permissions := perms |} |} in
  UF.save_obj_perms (form D1) wa = (wa1, Ok tt) →
  UF.save_obj_perms (form D2) wa1 = (wa2, Ok tt) →
  UF.save_obj_perms (form D1') wb = (wb1, Ok tt) →
  UF.save_obj_perms (form D2) wb1 = (wb2, Ok tt) →
  currentGrants (PUser user) obj (store wa2) ∩ codenames (get_perms_for_model obj)
  = currentGrants (PUser user) obj (store wb2) ∩ codenames (get_perms_for_model obj)
  ∧ currentGrants (PUser user) obj (store wa2) ∩ codenames (get_perms_for_model obj)
    = list_to_set D2 ∩ codenames (get_perms_for_model obj).
Proof.
  intros form _ Ha2 _ Hb2. rewrite user_form_run in Ha2, Hb2. simpl in Ha2, Hb2.
  by rewrite (planned_grants_scoped _ _ _ _ _ Ha2),
    (planned_grants_scoped _ _ _ _ _ Hb2).
Qed.

(** C10: whatever was selected, the set to remove is a subset of the
    catalog's codenames, every removal issued carries a codename of the
    catalog's codename list, and a grant whose codename the catalog does not
    define is still held after the invocation, complete or not. *)
Theorem removals_within_catalog (self : UF.t) (w w' : world S)
    (r : result unit) :
  UF.save_obj_perms self w = (w', r) →
  to_remove (UF.obj self) (UF.permissions (UF.cleaned_data self))
    ⊆ codenames (get_perms_for_model (UF.obj self)) ∧
  (∀ (c : string) (who : principal) (obj : Obj),
     RemovePerm c who obj ∈ calls_since w w' →
     c ∈ (BaseObjectPermissionsForm.get_obj_perms_field_choices (UF.obj self)).*1) ∧
  (∀ c : string,
     c ∉ codenames (get_perms_for_model (UF.obj self)) →
     c ∈ currentGrants (PUser (UF.user self)) (UF.obj self) (store w) →
     c ∈ currentGrants (PUser (UF.user self)) (UF.obj self) (store w')).
Proof.
  rewrite user_form_run. intros Hrun. split; [|split].
  - rewrite to_remove_difference. apply subseteq_difference_l. done.
  - intros c who obj Hk.
    destruct (run_calls_prefix _ _ _ _ Hrun) as [Hpre _].
    apply (elem_of_prefix _ _ _ Hk) in Hpre.
    apply planned_remove_inv in Hpre as (_ & _ & Hc).
    unfold to_remove in Hc. apply elem_of_difference in Hc as [Hc _].
    by apply elem_of_list_to_set in Hc.
  - intros c Hout Hc.
    by destruct (planned_frame _ _ _ _ _ _ c Hrun Hout) as (_ & Hkeep & _); auto.
Qed.
End Stored.

(** ** Grants outside the catalog, on a store that checks the catalog *)

Section Checked.
Context {S : Type} `{!GrantStore S} `{!PermissionCatalog} `{!SetIteration}.
Context `{!IdempotentStore S} `{!CatalogCheckedStore S} `{!SetIterationOk}.




End Checked.

(** ** Principal resolution *)

Section Resolution.
Context {A : Type} (pk : A → Z).

Lemma pk_unique (l : list A) (a a' : A) :
  NoDup (pk <$> l) → a ∈ l → a' ∈ l → pk a = pk a' → a = a'.
Proof.
  induction l as [|z l IH]; [by intros _ ?%elem_of_nil|].
  rewrite fmap_cons, NoDup_cons, !elem_of_cons.
  intros [Hz Hl] [->|Ha] [->|Ha'] Heq; [done| | |by apply IH].
  - destruct Hz. rewrite Heq. by apply list_elem_of_fmap_2.
  - destruct Hz. rewrite <-Heq. by apply list_elem_of_fmap_2.
Qed.

Lemma resolvePrincipal_found (candidateSet : list A) (selectedId : Z) (a : A) :
  resolvePrincipal pk candidateSet selectedId = Ok a →
  a ∈ candidateSet ∧ pk a = selectedId ∧
  (NoDup (pk <$> candidateSet) →
   ∀ a', a' ∈ candidateSet → pk a' = selectedId → a' = a).
Proof.
  unfold resolvePrincipal.
  destruct (list_find _ candidateSet) as [[i x]|] eqn:Hfind; [|done].
  intros [= ->]. apply list_find_Some in Hfind as (Hi & Hpk & _).
  apply list_elem_of_lookup_2 in Hi.
  split; [done|]. split; [done|]. intros Hnd a' Ha' Hpk'.
  apply (pk_unique candidateSet); [done..|congruence].
Qed.

Lemma resolvePrincipal_missing (candidateSet : list A) (selectedId : Z) :
  resolvePrincipal pk candidateSet selectedId = Raise NotFoundError
  ↔ selectedId ∉ pk <$> candidateSet.
Proof.
  unfold resolvePrincipal.
  destruct (list_find _ candidateSet) as [[i x]|] eqn:Hfind.
  - apply list_find_Some in Hfind as (Hi & Hpk & _).
    apply list_elem_of_lookup_2 in Hi. split; [done|].
    intros Hout. destruct Hout. rewrite <-Hpk. by apply list_elem_of_fmap_2.
  - apply list_find_None in Hfind. split; [|done]. intros _ Hin.
    apply list_elem_of_fmap in Hin as (a & -> & Ha).
    by apply (proj1 (Forall_forall _ _) Hfind a Ha).
Qed.

Lemma resolvePrincipal_error (candidateSet : list A) (selectedId : Z)
    (e : error) :
  resolvePrincipal pk candidateSet selectedId = Raise e → e = NotFoundError.
Proof.
  unfold resolvePrincipal.
  destruct (list_find _ candidateSet) as [[i x]|]; [done|]. by intros [= <-].
Qed.
End Resolution.

Section AddForms.
Context {S : Type} `{!GrantStore S} `{!PermissionCatalog} `{!SetIteration}.
Context `{!AuthModels}.

Lemma planned_call_who (who : principal) (obj : Obj) (perms : list string)
    (k : call) :
  k ∈ planned_calls who obj perms → call_who k = who.
Proof.
  unfold planned_calls. rewrite elem_of_app, !list_elem_of_fmap.
  by intros [(c & -> & _)|(c & -> & _)].
Qed.

Lemma issued_call_who (who : principal) (obj : Obj) (perms : list string)
    (w : world S) (k : call) :
  k ∈ calls_since w (run_calls (planned_calls who obj perms) w).1 →
  call_who k = who.
Proof.
  destruct (run_calls _ w) as [w' r] eqn:Hrun. simpl. intros Hk.
  apply run_calls_prefix in Hrun as [Hpre _].
  apply (planned_call_who who obj perms). exact (elem_of_prefix _ _ _ Hk Hpre).
Qed.

(** C8: resolution of the selected id against the field's queryset fails
    with [NotFoundError] exactly when no candidate has that key.  When it
    fails the request raises [NotFoundError] and leaves the world as it was.
    When it succeeds it returns a candidate with that key, the only one when
    keys are unique, and the request is [save_obj_perms] of the form holding
    that principal, whose every store call is about that principal.  For the
    add-user form and for the add-group form. *)
Theorem add_forms_resolve :
  (∀ selectedId : Z,
     (resolvePrincipal user_pk (queryset AUF.get_user_field) selectedId
        = Raise NotFoundError
      ↔ selectedId ∉ user_pk <$> queryset AUF.get_user_field) ∧
     ∀ (obj : Obj) (perms : list string) (w : world S),
       match resolvePrincipal user_pk (queryset AUF.get_user_field) selectedId with
       | Raise e =>
           e = NotFoundError ∧
           add_user_obj_perms obj selectedId perms w = (w, Raise NotFoundError)
       | Ok user =>
           user ∈ queryset AUF.get_user_field ∧
           user_pk user = selectedId ∧
           (NoDup (user_pk <$> queryset AUF.get_user_field) →
            ∀ u', u' ∈ queryset AUF.get_user_field →
                  user_pk u' = selectedId → u' = user) ∧
           add_user_obj_perms obj selectedId perms w
           = AUF.save_obj_perms
               {| AUF.obj := obj;
                  AUF.cleaned_data :=
                    {| AUF.user := user; AUF.permissions := perms |} |} w ∧
           ∀ k, k ∈ calls_since w (add_user_obj_perms obj selectedId perms w).1 →
                call_who k = PUser user
       end) ∧
  (∀ selectedId : Z,
     (resolvePrincipal group_pk (queryset AGF.get_group_field) selectedId
        = Raise NotFoundError
      ↔ selectedId ∉ group_pk <$> queryset AGF.get_group_field) ∧
     ∀ (obj : Obj) (perms : list string) (w : world S),
       match resolvePrincipal group_pk (queryset AGF.get_group_field) selectedId with
       | Raise e =>
           e = NotFoundError ∧
           add_group_obj_perms obj selectedId perms w = (w, Raise NotFoundError)
       | Ok group =>
           group ∈ queryset AGF.get_group_field ∧
           group_pk group = selectedId ∧
           (NoDup (group_pk <$> queryset AGF.get_group_field) →
            ∀ g', g' ∈ queryset AGF.get_group_field →
                  group_pk g' = selectedId → g' = group) ∧
           add_group_obj_perms obj selectedId perms w
           = AGF.save_obj_perms
               {| AGF.obj := obj;
                  AGF.cleaned_data :=
                    {| AGF.group := group; AGF.permissions := perms |} |} w ∧
           ∀ k, k ∈ calls_since w (add_group_obj_perms obj selectedId perms w).1 →
                call_who k = PGroup group
       end).
Proof.
  split; intros selectedId; (split; [apply resolvePrincipal_missing|]);
    intros obj perms w.
  - unfold add_user_obj_perms. rewrite bind_run. unfold lift.
    destruct (resolvePrincipal _ _ selectedId) as [user|e] eqn:Hres.
    + destruct (resolvePrincipal_found _ _ _ _ Hres) as (? & ? & ?).
      repeat (split; [done|]). intros k. rewrite add_user_form_run.
      apply issued_call_who.
    + by rewrite (resolvePrincipal_error _ _ _ _ Hres).
  - unfold add_group_obj_perms. rewrite bind_run. unfold lift.
    destruct (resolvePrincipal _ _ selectedId) as [group|e] eqn:Hres.
    + destruct (resolvePrincipal_found _ _ _ _ Hres) as (? & ? & ?).
      repeat (split; [done|]). intros k. rewrite add_group_form_run.
      apply issued_call_who.
    + by rewrite (resolvePrincipal_error _ _ _ _ Hres).
Qed.
End AddForms.

(** ** The claims on the concrete collaborators *)

Section Examples.
Local Existing Instance table_store.
Local Existing Instance elements_order.
Local Existing Instance post_catalog.
Local Existing Instance demo_auth.
Local Existing Instance table_store_idempotent.
Local Existing Instance elements_order_ok.

(** The example of the specification: Alice holds [view_post] and
    [change_post], [delete_post] is selected. *)
Example save_delete_post :
  UF.save_obj_perms (user_form ["delete_post"]) demo_world
  = (World {| rows := {[ (PUser alice, post1, "delete_post") ]};
              budget := None |}
       [RemovePerm "change_post" (PUser alice) post1;
        RemovePerm "view_post" (PUser alice) post1;
        Assign "delete_post" (PUser alice) post1],
     Ok tt).
Proof. compute_done. Qed.

(** The add-group form on a store without grants: two removals, then the
    assignment. *)
Example add_group_save_view_post :
  (AGF.save_obj_perms (add_group_form ["view_post"]) empty_world).2 = Ok tt ∧
  log (AGF.save_obj_perms (add_group_form ["view_post"]) empty_world).1
  = [RemovePerm "change_post" (PGroup editors) post1;
     RemovePerm "delete_post" (PGroup editors) post1;
     Assign "view_post" (PGroup editors) post1].
Proof. split; compute_done. Qed.

Example resolve_bob :
  (resolvePrincipal user_pk (queryset AUF.get_user_field) 2 = Ok bob) ∧
  (resolvePrincipal user_pk (queryset AUF.get_user_field) 7
   = Raise NotFoundError).
Proof. split; reflexivity. Qed.

Lemma save_obj_perms_exact_witness :
  currentGrants (PUser alice) post1
    (store (UF.save_obj_perms (user_form ["delete_post"]) demo_world).1)
    ∩ codenames (get_perms_for_model post1)
  = list_to_set ["delete_post"].
Proof.
  apply (save_obj_perms_exact (user_form ["delete_post"]) demo_world
           (UF.save_obj_perms (user_form ["delete_post"]) demo_world).1);
    compute_done.
Defined.

(** The catalog check of the store matters: on the table that grants
    anything, a form whose ['permissions'] hold [publish_post], which the
    catalog does not define, completes and creates that grant. *)
Example unchecked_table_grants_anything :
  ("publish_post" ∉ codenames (get_perms_for_model post1)) ∧
  ("publish_post" ∉ currentGrants (PUser alice) post1 (store empty_world)) ∧
  ((UF.save_obj_perms (user_form ["publish_post"]) empty_world).2 = Ok tt) ∧
  (Assign "publish_post" (PUser alice) post1
     ∈ calls_since empty_world
         (UF.save_obj_perms (user_form ["publish_post"]) empty_world).1) ∧
  ("publish_post"
     ∈ currentGrants (PUser alice) post1
         (store (UF.save_obj_perms (user_form ["publish_post"]) empty_world).1)).
Proof. repeat (split; [compute_done|]). compute_done. Qed.

Lemma save_obj_perms_frame_witness :
  "archive_post"
    ∈ currentGrants (PUser alice) post1
        (store (UF.save_obj_perms (user_form ["delete_post"]) legacy_world).1) ∧
  "archive_post"
    ∈ currentGrants (PGroup editors) post1
        (store (GF.save_obj_perms (group_form ["delete_post"])
                  (World {| rows := {[ (PGroup editors, post1, "archive_post") ]};
                            budget := None |} [])).1).
Proof.
  split.
  - destruct (proj1 save_obj_perms_frame (user_form ["delete_post"])
                legacy_world _ _ "archive_post" (surjective_pairing _))
      as (_ & Hkept & _); [compute_done|].
    apply Hkept. compute_done.
  - destruct (proj2 save_obj_perms_frame (group_form ["delete_post"])
                (World {| rows := {[ (PGroup editors, post1, "archive_post") ]};
                          budget := None |} [])
                _ _ "archive_post" (surjective_pairing _))
      as (_ & Hkept & _); [compute_done|].
    apply Hkept. compute_done.
Defined.

Lemma save_obj_perms_aborts_witness :
  UF.save_obj_perms (user_form ["delete_post"]) flaky_world
  = (World {| rows := {[ (PUser alice, post1, "view_post") ]};
              budget := Some 0 |}
       [RemovePerm "change_post" (PUser alice) post1;
        RemovePerm "view_post" (PUser alice) post1],
     Raise StoreOperationError).
Proof.
  apply (save_obj_perms_aborts (user_form ["delete_post"]) flaky_world
           [RemovePerm "change_post" (PUser alice) post1]
           [Assign "delete_post" (PUser alice) post1]
           (RemovePerm "view_post" (PUser alice) post1));
    compute_done.
Defined.

Lemma save_obj_perms_calls_witness :
  ∃ removed : list string,
    removed ≡ₚ elements (codenames (get_perms_for_model post1)
                         ∖ list_to_set ["delete_post"]) ∧
    calls_since demo_world
      (UF.save_obj_perms (user_form ["delete_post"]) demo_world).1
    = ((λ perm, RemovePerm perm (PUser alice) post1) <$> removed)
      ++ ((λ perm, Assign perm (PUser alice) post1) <$> ["delete_post"]).
Proof.
  apply (save_obj_perms_calls (user_form ["delete_post"]) demo_world).
  compute_done.
Defined.

Lemma save_obj_perms_idempotent_witness :
  currentGrants (PUser alice) post1
    (store (UF.save_obj_perms (user_form ["delete_post"])
              (UF.save_obj_perms (user_form ["delete_post"]) demo_world).1).1)
  = currentGrants (PUser alice) post1
      (store (UF.save_obj_perms (user_form ["delete_post"]) demo_world).1).
Proof.
  apply (save_obj_perms_idempotent (user_form ["delete_post"]) demo_world
           (UF.save_obj_perms (user_form ["delete_post"]) demo_world).1 _
           (UF.save_obj_perms (user_form ["delete_post"])
              (UF.save_obj_perms (user_form ["delete_post"]) demo_world).1).2);
    [compute_done|apply surjective_pairing].
Defined.

Lemma save_obj_perms_no_hysteresis_witness :
  currentGrants (PUser alice) post1
    (store (UF.save_obj_perms (user_form ["delete_post"])
              (UF.save_obj_perms (user_form ["view_post"]) demo_world).1).1)
    ∩ codenames (get_perms_for_model post1)
  = currentGrants (PUser alice) post1
      (store (UF.save_obj_perms (user_form ["delete_post"])
                (UF.save_obj_perms (user_form ["change_post"; "delete_post"])
                   empty_world).1).1)
      ∩ codenames (get_perms_for_model post1)
  ∧ currentGrants (PUser alice) post1
      (store (UF.save_obj_perms (user_form ["delete_post"])
                (UF.save_obj_perms (user_form ["view_post"]) demo_world).1).1)
      ∩ codenames (get_perms_for_model post1)
    = list_to_set ["delete_post"] ∩ codenames (get_perms_for_model post1).
Proof.
  apply (save_obj_perms_no_hysteresis alice post1
           ["view_post"] ["change_post"; "delete_post"] ["delete_post"]
           demo_world
           (UF.save_obj_perms (user_form ["view_post"]) demo_world).1
           (UF.save_obj_perms (user_form ["delete_post"])
              (UF.save_obj_perms (user_form ["view_post"]) demo_world).1).1
           empty_world
           (UF.save_obj_perms (user_form ["change_post"; "delete_post"])
              empty_world).1
           (UF.save_obj_perms (user_form ["delete_post"])
              (UF.save_obj_perms (user_form ["change_post"; "delete_post"])
                 empty_world).1).1);
    compute_done.
Defined.

Lemma save_obj_perms_disjoint_witness :
  to_remove post1 ["delete_post"] ∩ list_to_set ["delete_post"] = ∅ ∧
  Assign "view_post" (PUser alice) post1
    ∉ calls_since demo_world
        (UF.save_obj_perms (user_form ["delete_post"]) demo_world).1.
Proof.
  destruct (save_obj_perms_disjoint (user_form ["delete_post"]) demo_world)
    as [Hdisj Hcalls].
  split; [exact Hdisj|].
  apply (Hcalls "view_post" (PUser alice) (PUser alice) post1 post1).
  compute_done.
Defined.

Lemma removals_within_catalog_witness :
  to_remove post1 ["delete_post"] ⊆ codenames (get_perms_for_model post1) ∧
  "archive_post"
    ∈ currentGrants (PUser alice) post1
        (store (UF.save_obj_perms (user_form ["delete_post"]) legacy_world).1).
Proof.
  destruct (removals_within_catalog (user_form ["delete_post"]) legacy_world
              _ _ (surjective_pairing _)) as (Hsub & _ & Hkept).
  split; [exact Hsub|]. apply Hkept; compute_done.
Defined.
End Examples.

(** ** The store that checks the catalog *)

Lemma checked_store_idempotent (catalog : PermissionCatalog) :
  @IdempotentStore table (checked_store catalog).
Proof.
  split; simpl; intros perm who who' obj obj' s s' Hup;
    [case_decide; [|done]|];
    apply table_update_rows in Hup;
    apply set_eq; intros c; case_decide as Hd;
    rewrite ?elem_of_union, ?elem_of_difference, ?elem_of_singleton,
      !elem_of_table_grants, Hup,
      ?elem_of_union, ?elem_of_difference, ?elem_of_singleton.
  - destruct Hd as [-> ->]. split; [intros [[= ->]|?]|intros [->|?]]; auto.
  - split; [intros [[= -> -> ->]|?]|]; auto. by destruct Hd.
  - destruct Hd as [-> ->].
    split; (intros [? Hne]; split; [done|]); intros Heq; apply Hne;
      congruence.
  - split; [by intros [? _]|]. intros Hin. split; [done|].
    intros [= -> -> ->]. by destruct Hd.
Qed.

Lemma checked_store_checked (catalog : PermissionCatalog) :
  @CatalogCheckedStore table (checked_store catalog) catalog.
Proof.
  intros perm who obj s s'. simpl. by case_decide.
Qed.

Section CheckedExamples.
Local Existing Instance post_checked_store.
Local Existing Instance elements_order.
Local Existing Instance post_catalog.
Local Existing Instance elements_order_ok.

Lemma post_checked_store_idempotent : IdempotentStore table.
Proof. apply checked_store_idempotent. Qed.

Lemma post_checked_store_checked : CatalogCheckedStore table.
Proof. apply checked_store_checked. Qed.

Local Existing Instance post_checked_store_idempotent.
Local Existing Instance post_checked_store_checked.

(** A form whose ['permissions'] hold [publish_post], which the catalog does
    not define, saved for Alice on the store that checks the catalog: the
    three removals are applied, the assignment raises, [publish_post] is not
    granted and [archive_post] is still held. *)
Example checked_store_refuses_publish_post :
  (UF.save_obj_perms (user_form ["publish_post"]) legacy_world).2
  = Raise StoreOperationError ∧
  log (UF.save_obj_perms (user_form ["publish_post"]) legacy_world).1
  = [RemovePerm "change_post" (PUser alice) post1;
     RemovePerm "view_post" (PUser alice) post1;
     RemovePerm "delete_post" (PUser alice) post1;
     Assign "publish_post" (PUser alice) post1] ∧
  elements (currentGrants (PUser alice) post1
              (store (UF.save_obj_perms (user_form ["publish_post"])
                        legacy_world).1))
  = ["archive_post"].
Proof. repeat split; compute_done. Qed.

End CheckedExamples.

(** * Further properties of the forms *)

(** ** The calls of an invocation *)

Section MoreCalls.
Context {S : Type} `{!GrantStore S} `{!PermissionCatalog} `{!SetIteration}.

Lemma planned_call_obj (who : principal) (obj : Obj) (perms : list string)
    (k : call) :
  k ∈ planned_calls who obj perms → call_obj k = obj.
Proof.
  unfold planned_calls. rewrite elem_of_app, !list_elem_of_fmap.
  by intros [(c & -> & _)|(c & -> & _)].
Qed.

(** A journalled call is one of the list that was run. *)
Lemma issued_in_run (ks : list call) (w : world S) (k : call) :
  k ∈ calls_since w (run_calls ks w).1 → k ∈ ks.
Proof.
  destruct (run_calls ks w) as [w' r] eqn:Hrun. simpl. intros Hk.
  apply run_calls_prefix in Hrun as [Hpre _].
  exact (elem_of_prefix _ _ _ Hk Hpre).
Qed.

Lemma issued_target (who : principal) (obj : Obj) (perms : list string)
    (w : world S) (k : call) :
  k ∈ calls_since w (run_calls (planned_calls who obj perms) w).1 →
  call_who k = who ∧ call_obj k = obj.
Proof.
  intros Hk%issued_in_run. split.
  - by apply (planned_call_who who obj perms).
  - by apply (planned_call_obj who obj perms).
Qed.

(** X1: every store call of [save_obj_perms] is about the principal and the
    object of the form, for each of the four forms and for complete runs as
    for runs cut short by a raise: no invocation touches the grants of
    another principal or of another object. *)
Theorem save_obj_perms_targets :
  (∀ (self : UF.t) (w : world S) (k : call),
     k ∈ calls_since w (UF.save_obj_perms self w).1 →
     call_who k = PUser (UF.user self) ∧ call_obj k = UF.obj self) ∧
  (∀ (self : AUF.t) (w : world S) (k : call),
     k ∈ calls_since w (AUF.save_obj_perms self w).1 →
     call_who k = PUser (AUF.user (AUF.cleaned_data self)) ∧
     call_obj k = AUF.obj self) ∧
  (∀ (self : GF.t) (w : world S) (k : call),
     k ∈ calls_since w (GF.save_obj_perms self w).1 →
     call_who k = PGroup (GF.group self) ∧ call_obj k = GF.obj self) ∧
  (∀ (self : AGF.t) (w : world S) (k : call),
     k ∈ calls_since w (AGF.save_obj_perms self w).1 →
     call_who k = PGroup (AGF.group (AGF.cleaned_data self)) ∧
     call_obj k = AGF.obj self).
Proof.
  split; [|split; [|split]]; intros self w k.
  - rewrite user_form_run. apply issued_target.
  - rewrite add_user_form_run. apply issued_target.
  - rewrite group_form_run. apply issued_target.
  - rewrite add_group_form_run. apply issued_target.
Qed.

(** X15: an add-form and the form for a known principal store alike:
    [save_obj_perms] of the add-user form holding a user is
    [save_obj_perms] of the user form built for that user, with the same
    result, store and journal from every state; likewise for the add-group
    form and the group form. *)
Theorem add_forms_save_like_edit_forms :
  (∀ (user : User) (obj : Obj) (perms : list string) (w : world S),
     AUF.save_obj_perms
       {| AUF.obj := obj;
          AUF.cleaned_data := {| AUF.user := user; AUF.permissions := perms |} |}
       w
     = UF.save_obj_perms
         {| UF.user := user; UF.obj := obj;
            UF.cleaned_data := {| UF.permissions := perms |} |} w) ∧
  (∀ (group : Group) (obj : Obj) (perms : list string) (w : world S),
     AGF.save_obj_perms
       {| AGF.obj := obj;
          AGF.cleaned_data :=
            {| AGF.group := group; AGF.permissions := perms |} |} w
     = GF.save_obj_perms
         {| GF.group := group; GF.obj := obj;
            GF.cleaned_data := {| GF.permissions := perms |} |} w).
Proof.
  split; intros who obj perms w.
  - by rewrite add_user_form_run, user_form_run.
  - by rewrite add_group_form_run, group_form_run.
Qed.

Context `{!SetIterationOk}.

Lemma set_iter_length (X : gset string) : length (set_iter X) = size X.
Proof. by rewrite set_iter_elements. Qed.

Lemma set_iter_NoDup (X : gset string) : NoDup (set_iter X).
Proof. rewrite set_iter_elements. apply NoDup_elements. Qed.

(** X4: an invocation in which no call raises issues as many calls as there
    are catalog codenames not selected plus entries selected; when the
    selection has no repeats and lies within the catalog, that is one call
    for each codename of the catalog. *)
Theorem save_obj_perms_call_count (self : UF.t) (w w' : world S) :
  UF.save_obj_perms self w = (w', Ok tt) →
  length (calls_since w w')
  = (size (codenames (get_perms_for_model (UF.obj self))
           ∖ list_to_set (UF.permissions (UF.cleaned_data self)))
     + length (UF.permissions (UF.cleaned_data self)))%nat ∧
  (NoDup (UF.permissions (UF.cleaned_data self)) →
   list_to_set (UF.permissions (UF.cleaned_data self))
     ⊆ codenames (get_perms_for_model (UF.obj self)) →
   length (calls_since w w')
   = size (codenames (get_perms_for_model (UF.obj self)))).
Proof.
  rewrite user_form_run. intros Hrun.
  destruct (run_calls_inv _ _ _ _ Hrun)
    as [(_ & _ & Hlog)|(? & ? & ? & ? & [=] & _)].
  assert (length (calls_since w w')
          = (size (codenames (get_perms_for_model (UF.obj self))
                   ∖ list_to_set (UF.permissions (UF.cleaned_data self)))
             + length (UF.permissions (UF.cleaned_data self)))%nat) as Hlen.
  { unfold calls_since. rewrite Hlog, drop_app_length. unfold planned_calls.
    by rewrite length_app, !length_fmap, set_iter_length, to_remove_difference. }
  split; [done|]. intros Hnd Hsub. rewrite Hlen.
  rewrite size_difference by done.
  apply subseteq_size in Hsub. rewrite size_list_to_set in * by done. lia.
Qed.

Lemma planned_NoDup (who : principal) (obj : Obj) (perms : list string) :
  NoDup perms → NoDup (planned_calls who obj perms).
Proof.
  intros Hnd. unfold planned_calls. apply NoDup_app. split; [|split].
  - apply NoDup_fmap_2_strong; [by intros ?? _ _ [=]|apply set_iter_NoDup].
  - intros k (c & -> & _)%list_elem_of_fmap (c' & [=] & _)%list_elem_of_fmap.
  - apply NoDup_fmap_2_strong; [by intros ?? _ _ [=]|done].
Qed.

(** X5: when the selection has no repeats, no store call is issued twice in
    one invocation, complete or not; the removals are never repeated,
    whatever the selection. *)
Theorem save_obj_perms_no_repeat (self : UF.t) (w : world S) :
  (NoDup (UF.permissions (UF.cleaned_data self)) →
   NoDup (calls_since w (UF.save_obj_perms self w).1)) ∧
  (∀ removed assigned : list string,
     calls_since w (UF.save_obj_perms self w).1
     = ((λ perm, RemovePerm perm (PUser (UF.user self)) (UF.obj self))
          <$> removed)
       ++ ((λ perm, Assign perm (PUser (UF.user self)) (UF.obj self))
             <$> assigned) →
     NoDup removed).
Proof.
  rewrite user_form_run.
  destruct (run_calls _ w) as [w' r] eqn:Hrun. simpl.
  apply run_calls_prefix in Hrun as [[rest Hrest] _]. split.
  - intros Hnd%(planned_NoDup (PUser (UF.user self)) (UF.obj self)).
    rewrite Hrest in Hnd. by apply NoDup_app in Hnd as [? _].
  - intros removed assigned Hshape. rewrite Hshape in Hrest.
    unfold planned_calls in Hrest.
    assert (removed `prefix_of`
              set_iter (to_remove (UF.obj self)
                          (UF.permissions (UF.cleaned_data self)))) as [l Hl].
    { revert Hrest. generalize (set_iter (to_remove (UF.obj self)
                          (UF.permissions (UF.cleaned_data self)))).
      clear Hshape. induction removed as [|c removed IH]; intros l Hrest.
      - apply prefix_nil.
      - destruct l as [|c' l]; simpl in Hrest.
        + destruct (UF.permissions (UF.cleaned_data self)); discriminate.
        + injection Hrest as <- Hrest. apply prefix_cons. by apply IH. }
    pose proof (set_iter_NoDup (to_remove (UF.obj self)
                  (UF.permissions (UF.cleaned_data self)))) as Hnd.
    rewrite Hl in Hnd. by apply NoDup_app in Hnd as [? _].
Qed.
End MoreCalls.

(** ** The grants an invocation leaves *)

Section MoreStored.
Context {S : Type} `{!GrantStore S} `{!PermissionCatalog} `{!SetIteration}.
Context `{!IdempotentStore S} `{!SetIterationOk}.

(** After a run in which no call raised, the pair holds the selected
    codenames and what it held outside the catalog. *)
Lemma planned_grants_closed (who : principal) (obj : Obj)
    (perms : list string) (w w' : world S) :
  run_calls (planned_calls who obj perms) w = (w', Ok tt) →
  currentGrants who obj (store w') =
    list_to_set perms
    ∪ (currentGrants who obj (store w) ∖ codenames (get_perms_for_model obj)).
Proof.
  intros Hrun. rewrite (planned_grants_ok _ _ _ _ _ Hrun), to_remove_difference.
  apply set_eq. intros c.
  rewrite !elem_of_union, !elem_of_difference.
  destruct (decide (c ∈ (list_to_set perms : gset string)));
    [by split; left|].
  split; (intros [?|[? Hc]]; [done|right; split; [done|]]).
  - intros ?. by apply Hc.
  - by intros [? _].
Qed.

(** X6: when [save_obj_perms] of the user form completes, the user holds on
    the object exactly the selected codenames together with the codenames
    held before that the catalog does not define. *)
Theorem user_form_grants (self : UF.t) (w w' : world S) :
  UF.save_obj_perms self w = (w', Ok tt) →
  currentGrants (PUser (UF.user self)) (UF.obj self) (store w')
  = list_to_set (UF.permissions (UF.cleaned_data self))
    ∪ (currentGrants (PUser (UF.user self)) (UF.obj self) (store w)
       ∖ codenames (get_perms_for_model (UF.obj self))).
Proof. rewrite user_form_run. apply planned_grants_closed. Qed.

(** X7: likewise for the group form. *)
Theorem group_form_grants (self : GF.t) (w w' : world S) :
  GF.save_obj_perms self w = (w', Ok tt) →
  currentGrants (PGroup (GF.group self)) (GF.obj self) (store w')
  = list_to_set (GF.permissions (GF.cleaned_data self))
    ∪ (currentGrants (PGroup (GF.group self)) (GF.obj self) (store w)
       ∖ codenames (get_perms_for_model (GF.obj self))).
Proof. rewrite group_form_run. apply planned_grants_closed. Qed.

(** X8: likewise for the add-user form, for the user under ['user']. *)
Theorem add_user_form_grants (self : AUF.t) (w w' : world S) :
  AUF.save_obj_perms self w = (w', Ok tt) →
  currentGrants (PUser (AUF.user (AUF.cleaned_data self))) (AUF.obj self)
    (store w')
  = list_to_set (AUF.permissions (AUF.cleaned_data self))
    ∪ (currentGrants (PUser (AUF.user (AUF.cleaned_data self))) (AUF.obj self)
         (store w)
       ∖ codenames (get_perms_for_model (AUF.obj self))).
Proof. rewrite add_user_form_run. apply planned_grants_closed. Qed.

(** X9: likewise for the add-group form, for the group under ['group']. *)
Theorem add_group_form_grants (self : AGF.t) (w w' : world S) :
  AGF.save_obj_perms self w = (w', Ok tt) →
  currentGrants (PGroup (AGF.group (AGF.cleaned_data self))) (AGF.obj self)
    (store w')
  = list_to_set (AGF.permissions (AGF.cleaned_data self))
    ∪ (currentGrants (PGroup (AGF.group (AGF.cleaned_data self)))
         (AGF.obj self) (store w)
       ∖ codenames (get_perms_for_model (AGF.obj self))).
Proof. rewrite add_group_form_run. apply planned_grants_closed. Qed.

(** X2: with nothing selected no assignment is issued, complete run or
    not; a complete run issues one removal for each codename of the catalog
    and nothing else, and leaves the user with the grants held before that
    the catalog does not define. *)
Theorem save_obj_perms_nothing_selected (self : UF.t) (w w' : world S)
    (r : result unit) :
  UF.permissions (UF.cleaned_data self) = [] →
  UF.save_obj_perms self w = (w', r) →
  (∀ c who obj, Assign c who obj ∉ calls_since w w') ∧
  (r = Ok tt →
   (∃ removed : list string,
      removed ≡ₚ elements (codenames (get_perms_for_model (UF.obj self))) ∧
      calls_since w w'
      = (λ perm, RemovePerm perm (PUser (UF.user self)) (UF.obj self))
          <$> removed) ∧
   currentGrants (PUser (UF.user self)) (UF.obj self) (store w')
   = currentGrants (PUser (UF.user self)) (UF.obj self) (store w)
     ∖ codenames (get_perms_for_model (UF.obj self))).
Proof.
  rewrite user_form_run. intros Hnone Hrun. rewrite Hnone in Hrun. split.
  - intros c who obj Hk.
    destruct (run_calls_prefix _ _ _ _ Hrun) as [Hpre _].
    apply (elem_of_prefix _ _ _ Hk) in Hpre.
    apply planned_assign_inv in Hpre as (_ & _ & Hc). by apply elem_of_nil in Hc.
  - intros ->. split.
    + destruct (run_calls_inv _ _ _ _ Hrun)
        as [(_ & _ & Hlog)|(? & ? & ? & ? & [=] & _)].
      exists (set_iter (to_remove (UF.obj self) [])). split.
      * rewrite set_iter_elements, to_remove_difference.
        by rewrite list_to_set_nil, difference_empty_L.
      * unfold calls_since. rewrite Hlog, drop_app_length. unfold planned_calls.
        by rewrite fmap_nil, app_nil_r.
    + rewrite (planned_grants_closed _ _ _ _ _ Hrun).
      by rewrite list_to_set_nil, union_empty_l_L.
Qed.

(** X3: when every codename of the catalog is selected no removal is
    issued, complete run or not; a complete run issues exactly the
    assignments of the selection, in order, and the user holds the selection
    in addition to what was held before. *)
Theorem save_obj_perms_all_selected (self : UF.t) (w w' : world S)
    (r : result unit) :
  codenames (get_perms_for_model (UF.obj self))
    ⊆ list_to_set (UF.permissions (UF.cleaned_data self)) →
  UF.save_obj_perms self w = (w', r) →
  (∀ c who obj, RemovePerm c who obj ∉ calls_since w w') ∧
  (r = Ok tt →
   calls_since w w'
   = ((λ perm, Assign perm (PUser (UF.user self)) (UF.obj self))
        <$> UF.permissions (UF.cleaned_data self)) ∧
   currentGrants (PUser (UF.user self)) (UF.obj self) (store w')
   = list_to_set (UF.permissions (UF.cleaned_data self))
     ∪ currentGrants (PUser (UF.user self)) (UF.obj self) (store w)).
Proof.
  rewrite user_form_run. intros Hall Hrun.
  assert (to_remove (UF.obj self) (UF.permissions (UF.cleaned_data self)) = ∅)
    as Hempty.
  { rewrite to_remove_difference. apply set_eq. intros c.
    rewrite elem_of_difference. split; [|by intros ?%not_elem_of_empty].
    intros [Hc Hout]. destruct Hout. by apply Hall. }
  split.
  - intros c who obj Hk.
    destruct (run_calls_prefix _ _ _ _ Hrun) as [Hpre _].
    apply (elem_of_prefix _ _ _ Hk) in Hpre.
    apply planned_remove_inv in Hpre as (_ & _ & Hc).
    rewrite Hempty in Hc. by apply not_elem_of_empty in Hc.
  - intros ->. split.
    + destruct (run_calls_inv _ _ _ _ Hrun)
        as [(_ & _ & Hlog)|(? & ? & ? & ? & [=] & _)].
      unfold calls_since. rewrite Hlog, drop_app_length. unfold planned_calls.
      rewrite Hempty.
      assert (set_iter (∅ : gset string) = []) as ->; [|done].
      apply Permutation_nil_r. by rewrite set_iter_elements, elements_empty.
    + rewrite (planned_grants_ok _ _ _ _ _ Hrun), Hempty.
      by rewrite difference_empty_L.
Qed.

(** X10: the grants a complete invocation leaves depend on the selection
    only as a set: two selections with the same codenames, in any order and
    with any repeats, saved for one user and object from one state, leave
    every principal with the same grants. *)
Theorem save_obj_perms_selection_as_set (self self' : UF.t)
    (w w1 w2 : world S) :
  UF.user self' = UF.user self →
  UF.obj self' = UF.obj self →
  (list_to_set (UF.permissions (UF.cleaned_data self')) : gset string)
  = list_to_set (UF.permissions (UF.cleaned_data self)) →
  UF.save_obj_perms self w = (w1, Ok tt) →
  UF.save_obj_perms self' w = (w2, Ok tt) →
  ∀ (who : principal) (obj : Obj),
    currentGrants who obj (store w1) = currentGrants who obj (store w2).
Proof.
  rewrite !user_form_run. intros -> -> Hset Hrun1 Hrun2 who obj.
  destruct (decide (PUser (UF.user self) = who ∧ UF.obj self = obj))
    as [[<- <-]|Hne].
  - by rewrite (planned_grants_closed _ _ _ _ _ Hrun1),
      (planned_grants_closed _ _ _ _ _ Hrun2), Hset.
  - by rewrite (planned_grants_other _ _ _ _ _ _ _ _ Hne Hrun1),
      (planned_grants_other _ _ _ _ _ _ _ _ Hne Hrun2).
Qed.

(** X11: however an invocation ended, complete or cut short by a raise, a
    following invocation with the same selection that completes leaves the
    user with the selected codenames together with the codenames held
    before the first invocation that the catalog does not define: what a
    single complete invocation would have left. *)
Theorem save_obj_perms_retry (self : UF.t) (w0 w1 w2 : world S)
    (r : result unit) :
  UF.save_obj_perms self w0 = (w1, r) →
  UF.save_obj_perms self w1 = (w2, Ok tt) →
  currentGrants (PUser (UF.user self)) (UF.obj self) (store w2)
  = list_to_set (UF.permissions (UF.cleaned_data self))
    ∪ (currentGrants (PUser (UF.user self)) (UF.obj self) (store w0)
       ∖ codenames (get_perms_for_model (UF.obj self))).
Proof.
  rewrite !user_form_run. intros Hfirst Hsecond.
  rewrite (planned_grants_closed _ _ _ _ _ Hsecond).
  apply set_eq. intros c.
  destruct (planned_grants_bounds _ _ _ _ _ _ c Hfirst) as [Hup Hdown].
  rewrite !elem_of_union, !elem_of_difference, elem_of_list_to_set.
  split; (intros [?|[Hc Hout]]; [by left|]).
  - destruct (Hup Hc); [right|left]; done.
  - right. split; [|done]. destruct (Hdown Hc) as [?|Hrem]; [done|].
    rewrite to_remove_difference in Hrem.
    by apply elem_of_difference in Hrem as [? _].
Qed.
(** X14: a group form built for the same group and object after a complete
    [save_obj_perms] offers as initial selection the selected codenames
    together with the codenames held before that the catalog does not
    define; reading it issues no store call and changes nothing. *)
Theorem group_form_initial_after_save (self self' : GF.t) (w w' : world S) :
  GF.group self' = GF.group self →
  GF.obj self' = GF.obj self →
  GF.save_obj_perms self w = (w', Ok tt) →
  GF.get_obj_perms_field_initial self' w'
  = (w', Ok (list_to_set (GF.permissions (GF.cleaned_data self))
             ∪ (currentGrants (PGroup (GF.group self)) (GF.obj self) (store w)
                ∖ codenames (get_perms_for_model (GF.obj self))))).
Proof.
  rewrite group_form_run. intros Hgroup Hobj Hrun.
  unfold GF.get_obj_perms_field_initial, get_perms. rewrite Hgroup, Hobj.
  by rewrite (planned_grants_closed _ _ _ _ _ Hrun).
Qed.

(** The last call of a non-empty prefix of the planned calls tells how far
    the plan got. *)
Lemma planned_prefix_last (who : principal) (obj : Obj) (perms : list string)
    (ks : list call) (k : call) :
  (ks ++ [k]) `prefix_of` planned_calls who obj perms →
  match k with
  | RemovePerm _ _ _ =>
      ∃ removed : list string,
        ks ++ [k] = (λ perm, RemovePerm perm who obj) <$> removed
  | Assign _ _ _ =>
      ∃ assigned : list string,
        ks = ((λ perm, RemovePerm perm who obj)
                <$> set_iter (to_remove obj perms))
             ++ ((λ perm, Assign perm who obj) <$> assigned) ∧
        ∀ c, c ∈ assigned → c ∈ perms
  end.
Proof.
  intros Hpre.
  destruct (planned_prefix_shape _ _ _ _ Hpre)
    as (removed & assigned & Heq & Hfull).
  destruct assigned as [|c assigned _] using rev_ind.
  - rewrite fmap_nil, app_nil_r in Heq.
    destruct removed as [|c removed _] using rev_ind.
    + by destruct ks.
    + rewrite fmap_app in Heq. simpl in Heq.
      apply app_inj_tail in Heq as [-> ->].
      exists (removed ++ [c]). by rewrite fmap_app.
  - rewrite fmap_app, app_assoc in Heq. simpl in Heq.
    apply app_inj_tail in Heq as [-> ->].
    rewrite Hfull by (by destruct assigned).
    exists assigned. split; [done|]. intros c' Hc'.
    assert (Assign c' who obj ∈ planned_calls who obj perms) as Hin.
    { apply (elem_of_prefix (((λ perm, RemovePerm perm who obj) <$> removed)
               ++ ((λ perm, Assign perm who obj) <$> assigned) ++ [Assign c who obj])).
      - rewrite elem_of_app. right. rewrite elem_of_app. left.
        apply list_elem_of_fmap. by exists c'.
      - by rewrite app_assoc. }
    by apply planned_assign_inv in Hin as (_ & _ & ?).
Qed.

(** X12: when [save_obj_perms] raises, the last call issued is the one that
    raised.  If it is a removal, no assignment was issued and the user holds
    nothing that was not held before.  If it is an assignment, every
    removal was applied: the user holds no catalog codename outside the
    selection.  In both cases the user still holds what was held before
    outside the set to remove, and holds nothing that was neither held
    before nor selected. *)
Theorem save_obj_perms_abort_state (self : UF.t) (w w' : world S) (e : error) :
  UF.save_obj_perms self w = (w', Raise e) →
  ∃ (done_calls : list call) (failing : call),
    calls_since w w' = done_calls ++ [failing] ∧
    exec failing (store w') = Raise e ∧
    match failing with
    | RemovePerm _ _ _ =>
        (∀ c who obj, Assign c who obj ∉ calls_since w w') ∧
        currentGrants (PUser (UF.user self)) (UF.obj self) (store w')
          ⊆ currentGrants (PUser (UF.user self)) (UF.obj self) (store w)
    | Assign _ _ _ =>
        currentGrants (PUser (UF.user self)) (UF.obj self) (store w')
          ## codenames (get_perms_for_model (UF.obj self))
             ∖ list_to_set (UF.permissions (UF.cleaned_data self))
    end ∧
    currentGrants (PUser (UF.user self)) (UF.obj self) (store w)
      ∖ (codenames (get_perms_for_model (UF.obj self))
         ∖ list_to_set (UF.permissions (UF.cleaned_data self)))
      ⊆ currentGrants (PUser (UF.user self)) (UF.obj self) (store w') ∧
    currentGrants (PUser (UF.user self)) (UF.obj self) (store w')
      ⊆ currentGrants (PUser (UF.user self)) (UF.obj self) (store w)
        ∪ list_to_set (UF.permissions (UF.cleaned_data self)).
Proof.
  rewrite user_form_run. intros Hrun.
  destruct (run_calls_inv _ _ _ _ Hrun)
    as [([=] & _)|(pre & k & post & e' & [= <-] & Hplan & Hpre & Hk & Hlog)].
  exists pre, k.
  assert (calls_since w w' = pre ++ [k]) as Hsince
    by (unfold calls_since; by rewrite Hlog, drop_app_length).
  assert ((pre ++ [k]) `prefix_of`
            planned_calls (PUser (UF.user self)) (UF.obj self)
              (UF.permissions (UF.cleaned_data self))) as Hprefix
    by (exists post; by rewrite <-app_assoc).
  split; [done|]. split; [done|].
  pose proof (exec_all_grants _ _ _ (PUser (UF.user self)) (UF.obj self) Hpre)
    as Hafter.
  split; [|split].
  - pose proof (planned_prefix_last _ _ _ _ _ Hprefix) as Hlast.
    destruct k as [c0 who0 obj0|c0 who0 obj0].
    + destruct Hlast as [removed Hrem].
      assert (∀ c who obj,
                Assign c who obj ∉ pre ++ [RemovePerm c0 who0 obj0]) as Hnone
        by (intros c who obj; rewrite Hrem;
            by intros (? & [=] & _)%list_elem_of_fmap).
      rewrite Hsince. split; [done|]. intros c Hc. rewrite Hafter in Hc.
      destruct (effects_bounds (PUser (UF.user self)) (UF.obj self)
                  (currentGrants (PUser (UF.user self)) (UF.obj self) (store w))
                  pre c) as [Hup _].
      destruct (Hup Hc) as [?|Hass]; [done|].
      destruct (Hnone c (PUser (UF.user self)) (UF.obj self)).
      apply elem_of_app. by left.
    + destruct Hlast as (assigned & -> & Hsel).
      rewrite Hafter, effects_app, effects_removals, effects_assignments.
      rewrite set_iter_to_set, to_remove_difference.
      apply elem_of_disjoint. intros c Hc [Hcat Hout]%elem_of_difference.
      apply elem_of_union in Hc as [Hc|Hc].
      * apply Hout. apply elem_of_list_to_set, Hsel.
        by apply elem_of_list_to_set in Hc.
      * apply elem_of_difference in Hc as [_ Hc]. apply Hc.
        by apply elem_of_difference.
  - intros c [Hc Hkeep]%elem_of_difference.
    destruct (planned_grants_bounds _ _ _ _ _ _ c Hrun) as [_ Hdown].
    destruct (Hdown Hc) as [?|Hrem]; [done|].
    by rewrite to_remove_difference in Hrem.
  - intros c Hc.
    destruct (planned_grants_bounds _ _ _ _ _ _ c Hrun) as [Hup _].
    apply elem_of_union. destruct (Hup Hc); [by left|right].
    by apply elem_of_list_to_set.
Qed.
End MoreStored.

(** ** The further properties on the concrete collaborators *)

Lemma locked_update_rows perm f (t t' : locked_table) :
  locked_update perm f t = Ok t' → lrows t' = f (lrows t).
Proof.
  unfold locked_update. destruct (lock t) as [[locked n]|]; [|by intros [= <-]].
  case_decide; [done|]. by intros [= <-].
Qed.

Lemma elem_of_locked_grants (who : principal) (obj : Obj) (t : locked_table)
    (c : string) :
  c ∈ @currentGrants _ locked_store who obj t ↔ (who, obj, c) ∈ lrows t.
Proof.
  simpl. rewrite elem_of_map. split.
  - intros ([[who' obj'] c'] & -> & Hin).
    apply elem_of_filter in Hin as [Heq Hin]. simpl in Heq.
    by injection Heq as -> ->.
  - intros Hin. exists (who, obj, c). split; [done|].
    by apply elem_of_filter.
Qed.

Lemma locked_store_idempotent : @IdempotentStore locked_table locked_store.
Proof.
  split; intros perm who who' obj obj' s s' Hup;
    apply locked_update_rows in Hup;
    apply set_eq; intros c; case_decide as Hd;
    rewrite ?elem_of_union, ?elem_of_difference, ?elem_of_singleton,
      !elem_of_locked_grants, Hup,
      ?elem_of_union, ?elem_of_difference, ?elem_of_singleton.
  - destruct Hd as [-> ->]. split; [intros [[= ->]|?]|intros [->|?]]; auto.
  - split; [intros [[= -> -> ->]|?]|]; auto. by destruct Hd.
  - destruct Hd as [-> ->].
    split; (intros [? Hne]; split; [done|]); intros Heq; apply Hne;
      congruence.
  - split; [by intros [? _]|]. intros Hin. split; [done|].
    intros [= -> -> ->]. by destruct Hd.
Qed.

Section MoreExamples.
Local Existing Instance table_store.
Local Existing Instance locked_store.
Local Existing Instance elements_order.
Local Existing Instance post_catalog.
Local Existing Instance table_store_idempotent.
Local Existing Instance locked_store_idempotent.
Local Existing Instance elements_order_ok.

(** A failed invocation on the locked store, and the retry. *)
Example locked_save_then_retry :
  (UF.save_obj_perms (user_form ["delete_post"]) locked_world).2
  = Raise StoreOperationError ∧
  log (UF.save_obj_perms (user_form ["delete_post"]) locked_world).1
  = [RemovePerm "change_post" (PUser alice) post1;
     RemovePerm "view_post" (PUser alice) post1] ∧
  (UF.save_obj_perms (user_form ["delete_post"])
     (UF.save_obj_perms (user_form ["delete_post"]) locked_world).1).2
  = Ok tt.
Proof. repeat split; compute_done. Qed.

Lemma save_obj_perms_nothing_selected_witness :
  (Assign "view_post" (PUser alice) post1
     ∉ calls_since legacy_world
         (UF.save_obj_perms (user_form []) legacy_world).1) ∧
  currentGrants (PUser alice) post1
    (store (UF.save_obj_perms (user_form []) legacy_world).1)
  = currentGrants (PUser alice) post1 (store legacy_world)
    ∖ codenames (get_perms_for_model post1).
Proof.
  destruct (save_obj_perms_nothing_selected (user_form []) legacy_world
              _ _ eq_refl (surjective_pairing _)) as [Hnone Hok].
  split; [apply Hnone|]. apply Hok. compute_done.
Defined.

Lemma save_obj_perms_all_selected_witness :
  (RemovePerm "view_post" (PUser alice) post1
     ∉ calls_since demo_world
         (UF.save_obj_perms
            (user_form ["delete_post"; "view_post"; "change_post"])
            demo_world).1) ∧
  currentGrants (PUser alice) post1
    (store (UF.save_obj_perms
              (user_form ["delete_post"; "view_post"; "change_post"])
              demo_world).1)
  = list_to_set ["delete_post"; "view_post"; "change_post"]
    ∪ currentGrants (PUser alice) post1 (store demo_world).
Proof.
  destruct (save_obj_perms_all_selected
              (user_form ["delete_post"; "view_post"; "change_post"])
              demo_world
              (UF.save_obj_perms
                 (user_form ["delete_post"; "view_post"; "change_post"])
                 demo_world).1
              (UF.save_obj_perms
                 (user_form ["delete_post"; "view_post"; "change_post"])
                 demo_world).2) as [Hnone Hok];
    [compute_done|apply surjective_pairing|].
  split; [apply Hnone|]. apply Hok. compute_done.
Defined.

Lemma save_obj_perms_call_count_witness :
  length (calls_since demo_world
            (UF.save_obj_perms (user_form ["delete_post"]) demo_world).1)
  = size (codenames (get_perms_for_model post1)).
Proof.
  destruct (save_obj_perms_call_count (user_form ["delete_post"]) demo_world
              (UF.save_obj_perms (user_form ["delete_post"]) demo_world).1)
    as [_ Hone]; [compute_done|].
  apply Hone; compute_done.
Defined.

Lemma save_obj_perms_no_repeat_witness :
  NoDup (calls_since demo_world
           (UF.save_obj_perms (user_form ["delete_post"]) demo_world).1).
Proof.
  apply (proj1 (save_obj_perms_no_repeat (user_form ["delete_post"])
                  demo_world)).
  compute_done.
Defined.

Lemma user_form_grants_witness :
  currentGrants (PUser alice) post1
    (store (UF.save_obj_perms (user_form ["delete_post"]) legacy_world).1)
  = list_to_set ["delete_post"]
    ∪ (currentGrants (PUser alice) post1 (store legacy_world)
       ∖ codenames (get_perms_for_model post1)).
Proof.
  apply (user_form_grants (user_form ["delete_post"]) legacy_world).
  compute_done.
Defined.

Lemma group_form_grants_witness :
  currentGrants (PGroup editors) post1
    (store (GF.save_obj_perms (group_form ["delete_post"]) team_world).1)
  = list_to_set ["delete_post"]
    ∪ (currentGrants (PGroup editors) post1 (store team_world)
       ∖ codenames (get_perms_for_model post1)).
Proof.
  apply (group_form_grants (group_form ["delete_post"]) team_world).
  compute_done.
Defined.

Lemma add_user_form_grants_witness :
  currentGrants (PUser bob) post1
    (store (AUF.save_obj_perms (add_user_form ["view_post"]) team_world).1)
  = list_to_set ["view_post"]
    ∪ (currentGrants (PUser bob) post1 (store team_world)
       ∖ codenames (get_perms_for_model post1)).
Proof.
  apply (add_user_form_grants (add_user_form ["view_post"]) team_world).
  compute_done.
Defined.

Lemma add_group_form_grants_witness :
  currentGrants (PGroup editors) post1
    (store (AGF.save_obj_perms (add_group_form ["view_post"]) team_world).1)
  = list_to_set ["view_post"]
    ∪ (currentGrants (PGroup editors) post1 (store team_world)
       ∖ codenames (get_perms_for_model post1)).
Proof.
  apply (add_group_form_grants (add_group_form ["view_post"]) team_world).
  compute_done.
Defined.

Lemma save_obj_perms_selection_as_set_witness :
  currentGrants (PUser alice) post1
    (store (UF.save_obj_perms (user_form ["view_post"; "delete_post"])
              demo_world).1)
  = currentGrants (PUser alice) post1
      (store (UF.save_obj_perms
                (user_form ["delete_post"; "view_post"; "delete_post"])
                demo_world).1).
Proof.
  apply (save_obj_perms_selection_as_set
           (user_form ["view_post"; "delete_post"])
           (user_form ["delete_post"; "view_post"; "delete_post"])
           demo_world);
    compute_done.
Defined.

Lemma save_obj_perms_retry_witness :
  currentGrants (PUser alice) post1
    (store (UF.save_obj_perms (user_form ["delete_post"])
              (UF.save_obj_perms (user_form ["delete_post"])
                 locked_world).1).1)
  = list_to_set ["delete_post"]
    ∪ (currentGrants (PUser alice) post1 (store locked_world)
       ∖ codenames (get_perms_for_model post1)).
Proof.
  apply (save_obj_perms_retry (user_form ["delete_post"]) locked_world
           (UF.save_obj_perms (user_form ["delete_post"]) locked_world).1
           _ (Raise StoreOperationError));
    compute_done.
Defined.

Lemma group_form_initial_after_save_witness :
  GF.get_obj_perms_field_initial (group_form [])
    (GF.save_obj_perms (group_form ["delete_post"]) team_world).1
  = ((GF.save_obj_perms (group_form ["delete_post"]) team_world).1,
     Ok (list_to_set ["delete_post"]
         ∪ (currentGrants (PGroup editors) post1 (store team_world)
            ∖ codenames (get_perms_for_model post1)))).
Proof.
  apply (group_form_initial_after_save (group_form ["delete_post"])
           (group_form []) team_world);
    compute_done.
Defined.

Lemma save_obj_perms_abort_state_witness :
  ∃ (done_calls : list call) (failing : call),
    calls_since flaky2_world
      (UF.save_obj_perms (user_form ["delete_post"]) flaky2_world).1
    = done_calls ++ [failing] ∧
    exec failing
      (store (UF.save_obj_perms (user_form ["delete_post"]) flaky2_world).1)
    = Raise StoreOperationError ∧
    match failing with
    | RemovePerm _ _ _ =>
        (∀ c who obj,
           Assign c who obj
           ∉ calls_since flaky2_world
               (UF.save_obj_perms (user_form ["delete_post"]) flaky2_world).1) ∧
        currentGrants (PUser alice) post1
          (store (UF.save_obj_perms (user_form ["delete_post"])
                    flaky2_world).1)
          ⊆ currentGrants (PUser alice) post1 (store flaky2_world)
    | Assign _ _ _ =>
        currentGrants (PUser alice) post1
          (store (UF.save_obj_perms (user_form ["delete_post"])
                    flaky2_world).1)
          ## codenames (get_perms_for_model post1)
             ∖ list_to_set ["delete_post"]
    end ∧
    currentGrants (PUser alice) post1 (store flaky2_world)
      ∖ (codenames (get_perms_for_model post1) ∖ list_to_set ["delete_post"])
      ⊆ currentGrants (PUser alice) post1
          (store (UF.save_obj_perms (user_form ["delete_post"])
                    flaky2_world).1) ∧
    currentGrants (PUser alice) post1
      (store (UF.save_obj_perms (user_form ["delete_post"]) flaky2_world).1)
      ⊆ currentGrants (PUser alice) post1 (store flaky2_world)
        ∪ list_to_set ["delete_post"].
Proof.
  apply (save_obj_perms_abort_state (user_form ["delete_post"]) flaky2_world).
  compute_done.
Defined.

(** The run above stopped at the assignment, after both removals. *)
Example flaky2_stops_at_assignment :
  log (UF.save_obj_perms (user_form ["delete_post"]) flaky2_world).1
  = [RemovePerm "change_post" (PUser alice) post1;
     RemovePerm "view_post" (PUser alice) post1;
     Assign "delete_post" (PUser alice) post1] ∧
  elements (currentGrants (PUser alice) post1
              (store (UF.save_obj_perms (user_form ["delete_post"])
                        flaky2_world).1))
  = [].
Proof. split; compute_done. Qed.
End MoreExamples.
